(** * Chat middleware: sessions, socket protocol, sweep job and responder client

    A shallow embedding of the TypeScript services of the chat middleware
    (cleanupJob.ts, socketManager.ts, n8nService.ts and the heartbeat route
    of server.ts), followed by the properties of its session life cycle.

    Conventions of the embedding:
    - instants (Date values, [created_at], [last_active_at]) are
      milliseconds since the epoch, in [Z]; a [Date] built from a number
      is [None] when it is the Invalid Date;
    - a string holds the UTF-8 encoding of its text, byte by byte, as the
      string literals of this file do;
    - an [async] function is a state transformer over [World] that either
      returns a value or throws; one handler runs to completion before the
      next one starts (no interleaving at [await]), except where a handler
      is given in two parts around an [await] ([on_message_resume]);
    - info-level tracing through the logger is left out, [logger.warn] and
      [logger.error] calls and the sweep summary are recorded in [logs]. *)

From stdpp Require Import gmap strings list fin_maps pretty sorting.
From Stdlib Require Import ZArith Lia Ascii.

Local Open Scope Z_scope.

(** ** Enumerations of the Prisma client *)

Inductive chat_session_status := ACTIVE | INACTIVE | CLOSED.
Inductive message_role := USER | BOT | SYSTEM.

#[global] Instance chat_session_status_eq_dec : EqDecision chat_session_status.
Proof. solve_decision. Defined.
#[global] Instance message_role_eq_dec : EqDecision message_role.
Proof. solve_decision. Defined.

(** ** Rows of the two tables *)

(** Modelled from the spec: prisma/schema.prisma is not part of the sources;
    a session row carries the columns the services read and write (visitor
    identity, status, last-activity and creation instants); the primary key
    [id] is the key of the table. *)
Module ChatSession.

Record row := {
  visitor_id : string;
  status : chat_session_status;
  last_active_at : Z;
  created_at : Z;
}.

(** What the client hands back to the services: the row with its key. *)
Record t := { id : string; columns : row }.

End ChatSession.

(** Modelled from the spec: the message columns of prisma/schema.prisma
    used by the services. *)
Module ChatMessage.

Record t := {
  id : string;
  session_id : string;
  role : message_role;
  content : string;
  created_at : Z;
}.

End ChatMessage.

(** ** JSON values (axios response bodies, message metadata) *)

#[warnings="-register-all"]
Inductive json :=
| JNull
| JBool (b : bool)
| JNum (n : Z)
| JStr (s : string)
| JArr (items : list json)
| JObj (fields : list (string * json)).

(** ** Protocol types of socketManager.ts *)

Record ChatMessageDto := {
  dto_id : string;
  sender : message_role;
  dto_content : string;
  createdAt : Z;   (* the instant whose ISO rendering the source sends *)
}.

Record IncomingMessagePayload := {
  msg_sessionId : option string;
  msg_content : option string;
  msg_metadata : option json;
}.

Inductive ServerEvent :=
| EvSession (sessionId visitorId : string) (st : chat_session_status)
| EvHistory (h : list ChatMessageDto)
| EvMessage (m : ChatMessageDto)
| EvStatus (st : chat_session_status)
| EvError (message : string)
| EvSessionClosed (sessionId message : string).

(** The body posted to the webhook by n8nService.ts. *)
Record N8nHistoryEntry := {
  h_sender : message_role;
  h_content : string;
  h_createdAt : Z;
}.

Record N8nPayload := {
  n8n_sessionId : string;
  n8n_message : string;
  n8n_history : list N8nHistoryEntry;
  n8n_metadata : option json;
}.

Record N8nBody := {
  body_sessionId : string;
  chatInput : string;
  body_history : list N8nHistoryEntry;
  body_metadata : json;
}.

Inductive AxiosOutcome :=
| Rejected (message : string)     (* timeout, network error, HTTP error *)
| Resolved (data : json).

(** ** The world the services act on *)

Record Socket := {
  data_sessionId : option string;
  data_visitorId : option string;
  rooms : gset string;
  outbox : list ServerEvent;      (* events emitted to this client, oldest first *)
  listening : bool;               (* registerSocketEvents has run *)
  connected : bool;
}.

Inductive LogLevel := LInfo | LWarn | LError.
Record LogEntry := { level : LogLevel; text : string }.

Record World := {
  chatSession : gmap string ChatSession.row;
  chatMessage : list ChatMessage.t;       (* rows in insertion order *)
  sockets : gmap nat Socket;
  clock : Z;                              (* what Date.now() reads *)
  issued : nat;                           (* identifiers drawn so far *)
  posts : list N8nBody;                   (* webhook calls, oldest first *)
  logs : list LogEntry;
}.

Definition set_chatSession (f : gmap string ChatSession.row → gmap string ChatSession.row)
    (w : World) : World :=
  {| chatSession := f (chatSession w); chatMessage := chatMessage w;
     sockets := sockets w; clock := clock w; issued := issued w;
     posts := posts w; logs := logs w |}.

Definition set_chatMessage (f : list ChatMessage.t → list ChatMessage.t)
    (w : World) : World :=
  {| chatSession := chatSession w; chatMessage := f (chatMessage w);
     sockets := sockets w; clock := clock w; issued := issued w;
     posts := posts w; logs := logs w |}.

Definition set_sockets (f : gmap nat Socket → gmap nat Socket) (w : World) : World :=
  {| chatSession := chatSession w; chatMessage := chatMessage w;
     sockets := f (sockets w); clock := clock w; issued := issued w;
     posts := posts w; logs := logs w |}.

Definition set_clock (f : Z → Z) (w : World) : World :=
  {| chatSession := chatSession w; chatMessage := chatMessage w;
     sockets := sockets w; clock := f (clock w); issued := issued w;
     posts := posts w; logs := logs w |}.

Definition set_issued (f : nat → nat) (w : World) : World :=
  {| chatSession := chatSession w; chatMessage := chatMessage w;
     sockets := sockets w; clock := clock w; issued := f (issued w);
     posts := posts w; logs := logs w |}.

Definition set_posts (f : list N8nBody → list N8nBody) (w : World) : World :=
  {| chatSession := chatSession w; chatMessage := chatMessage w;
     sockets := sockets w; clock := clock w; issued := issued w;
     posts := f (posts w); logs := logs w |}.

Definition set_logs (f : list LogEntry → list LogEntry) (w : World) : World :=
  {| chatSession := chatSession w; chatMessage := chatMessage w;
     sockets := sockets w; clock := clock w; issued := issued w;
     posts := posts w; logs := f (logs w) |}.

(** ** Asynchronous computations: state plus exceptions *)

Inductive Outcome (A : Type) :=
| Returned (a : A)
| Thrown (e : string).
Arguments Returned {A} a.
Arguments Thrown {A} e.

Definition Async (A : Type) : Type := World → World * Outcome A.

#[global] Instance Async_ret : MRet Async := λ A a w, (w, Returned a).
#[global] Instance Async_bind : MBind Async := λ A B f m w,
  match m w with
  | (w', Returned a) => f a w'
  | (w', Thrown e) => (w', Thrown e)
  end.

Definition throw {A} (e : string) : Async A := λ w, (w, Thrown e).

(** [try { body } catch (error) { handler }]: writes made before the throw
    stay in the world. *)
Definition try_catch {A} (body : Async A) (handler : string → Async A) : Async A :=
  λ w, match body w with
       | (w', Returned a) => (w', Returned a)
       | (w', Thrown e) => handler e w'
       end.

Definition gets {A} (f : World → A) : Async A := λ w, (w, Returned (f w)).
Definition modify (f : World → World) : Async unit := λ w, (f w, Returned tt).

Definition run {A} (m : Async A) (w : World) : World := fst (m w).
Definition result {A} (m : Async A) (w : World) : Outcome A := snd (m w).

Definition logger (l : LogLevel) (msg : string) : Async unit :=
  modify (set_logs (λ ls, ls ++ [ {| level := l; text := msg |} ])).

Definition Date_now : Async Z := gets clock.

(** ** The Prisma client (lib/prisma.ts)

    Modelled from the spec: the store is "an abstract store with atomic
    update-many and point-lookup operations"; the client module and its
    schema are not part of the sources. The operations are the ones the
    services call. [update] rejects when no row has the given key ("Record
    to update not found"), which is what the [catch] blocks of the handlers
    receive; the other operations always succeed. Columns left out by a
    [create] take the schema default: a fresh identifier for [id], the
    current instant for the timestamps. *)

Definition uuid : Async string := λ w,
  (set_issued S w, Returned ("id-" +:+ pretty (issued w))).

Definition with_key (kv : string * ChatSession.row) : ChatSession.t :=
  {| ChatSession.id := kv.1; ChatSession.columns := kv.2 |}.

Definition chatSession_findUnique (id : string) : Async (option ChatSession.t) :=
  gets (λ w, (λ r, with_key (id, r)) <$> chatSession w !! id).

Definition chatSession_update (id : string) (data : ChatSession.row → ChatSession.row)
    : Async ChatSession.t := λ w,
  match chatSession w !! id with
  | Some r => (set_chatSession <[id := data r]> w, Returned (with_key (id, data r)))
  | None => (w, Thrown "Record to update not found.")
  end.

Definition apply_where (cond : ChatSession.row → bool)
    (data : ChatSession.row → ChatSession.row) (r : ChatSession.row) : ChatSession.row :=
  if cond r then data r else r.

Definition count_where (cond : ChatSession.row → bool)
    (tbl : gmap string ChatSession.row) : nat :=
  length (filter (λ kv, cond kv.2 = true) (map_to_list tbl)).

Definition chatSession_updateMany (cond : ChatSession.row → bool)
    (data : ChatSession.row → ChatSession.row) : Async nat := λ w,
  (set_chatSession (fmap (apply_where cond data)) w,
   Returned (count_where cond (chatSession w))).

(** [orderBy: { created_at: 'desc' }] followed by taking the first row:
    the row with the greatest creation instant among the candidates. *)
Definition newer (a b : ChatSession.t) : ChatSession.t :=
  if decide (ChatSession.created_at (ChatSession.columns a)
             < ChatSession.created_at (ChatSession.columns b)) then b else a.

Fixpoint most_recent (l : list ChatSession.t) : option ChatSession.t :=
  match l with
  | [] => None
  | s :: rest => Some (match most_recent rest with
                       | Some b => newer s b
                       | None => s
                       end)
  end.

Definition chatSession_findFirst_desc (cond : ChatSession.row → bool)
    : Async (option ChatSession.t) :=
  gets (λ w, most_recent
               (filter (λ s, cond (ChatSession.columns s) = true)
                       (with_key <$> map_to_list (chatSession w)))).

Definition chatSession_create (visitor : string) (st : chat_session_status)
    : Async ChatSession.t :=
  id ← uuid;
  now ← Date_now;
  let r := {| ChatSession.visitor_id := visitor; ChatSession.status := st;
              ChatSession.last_active_at := now; ChatSession.created_at := now |} in
  modify (set_chatSession <[id := r]>);;
  mret (with_key (id, r)).

Definition chatMessage_create (sid : string) (r : message_role) (c : string)
    : Async ChatMessage.t :=
  id ← uuid;
  now ← Date_now;
  let m := {| ChatMessage.id := id; ChatMessage.session_id := sid;
              ChatMessage.role := r; ChatMessage.content := c;
              ChatMessage.created_at := now |} in
  modify (set_chatMessage (λ ms, ms ++ [m]));;
  mret m.

(** [orderBy: { created_at: 'asc' }]: rows with equal instants keep their
    insertion order. *)
Fixpoint insert_asc (m : ChatMessage.t) (l : list ChatMessage.t) : list ChatMessage.t :=
  match l with
  | [] => [m]
  | x :: rest =>
      if decide (ChatMessage.created_at m ≤ ChatMessage.created_at x)
      then m :: x :: rest
      else x :: insert_asc m rest
  end.

Definition order_asc (l : list ChatMessage.t) : list ChatMessage.t :=
  foldr insert_asc [] l.

Definition of_session (sid : string) (l : list ChatMessage.t) : list ChatMessage.t :=
  filter (λ m, ChatMessage.session_id m = sid) l.

(** [findMany({ where: { session_id }, orderBy: { created_at: 'asc' }, take })];
    [None] stands for a query without [take]. *)
Definition chatMessage_findMany_asc (sid : string) (take_ : option nat)
    : Async (list ChatMessage.t) :=
  gets (λ w, let all := order_asc (of_session sid (chatMessage w)) in
             match take_ with
             | Some n => take n all
             | None => all
             end).

(** ** config/env.ts *)

(** A JavaScript number as the sweep job sees it: [NaN] or a finite value.
    Finite settings are taken integer-valued: as long as the thresholds of
    a tick are valid dates the floating-point arithmetic of the job is
    exact on them, and beyond that range it yields the Invalid Date as the
    exact arithmetic does. Fractional settings and the two infinities are
    not covered. *)
Inductive number := NaN | Num (z : Z).

Record EnvConfig := {
  heartbeatTimeoutSeconds : number;
  sessionCloseMinutes : number;
}.

Definition Number_isNaN (n : number) : bool :=
  match n with NaN => true | Num _ => false end.

(** ** services/cleanupJob.ts *)

(** A node-cron task: the callback and whether the task is started.
    [schedule] returns a started task, [stop] halts it. *)
Record ScheduledTask := { callback : Async unit; running : bool }.

Definition schedule (cb : Async unit) : ScheduledTask :=
  {| callback := cb; running := true |}.
Definition stop (t : ScheduledTask) : ScheduledTask :=
  {| callback := callback t; running := false |}.

(** The cron expression comes due: a started task runs its callback. *)
Definition fire (t : ScheduledTask) : Async unit :=
  if running t then callback t else mret tt.

Definition is_active_before (threshold : Z) (r : ChatSession.row) : bool :=
  bool_decide (ChatSession.status r = ACTIVE)
  && bool_decide (ChatSession.last_active_at r < threshold).

Definition is_open_before (threshold : Z) (r : ChatSession.row) : bool :=
  bool_decide (ChatSession.status r ∈ [ACTIVE; INACTIVE])
  && bool_decide (ChatSession.last_active_at r < threshold).

Definition set_status (st : chat_session_status) (r : ChatSession.row) : ChatSession.row :=
  {| ChatSession.visitor_id := ChatSession.visitor_id r;
     ChatSession.status := st;
     ChatSession.last_active_at := ChatSession.last_active_at r;
     ChatSession.created_at := ChatSession.created_at r |}.

(** The time values handed to [new Date] by a tick. *)
Definition inactiveThreshold (now heartbeatTimeoutSec : Z) : Z :=
  now - heartbeatTimeoutSec * 1000.
Definition closeThreshold (now sessionCloseMin : Z) : Z :=
  now - sessionCloseMin * 60 * 1000.

(** [new Date(value)]: a time value is at most 8.64e15 milliseconds away
    from the epoch; beyond that the result is the Invalid Date. *)
Definition max_time_value : Z := 8640000000000000.

Definition new_Date (value : Z) : option Z :=
  if decide (- max_time_value ≤ value ≤ max_time_value) then Some value else None.

(** A date among the arguments of a query: the Prisma client validates the
    arguments before the query runs and rejects an Invalid Date, so no row
    is touched by that query. *)
Definition date_argument (d : option Z) : Async Z :=
  match d with
  | Some t => mret t
  | None => throw "Invalid value for argument lt: Provided Date object is invalid."
  end.

(** The two bulk updates of a tick, for a threshold that is a valid date. *)
Definition markInactive (threshold : Z) : Async nat :=
  chatSession_updateMany (is_active_before threshold) (set_status INACTIVE).
Definition markClosed (threshold : Z) : Async nat :=
  chatSession_updateMany (is_open_before threshold) (set_status CLOSED).

(** The callback scheduled for every minute. Both thresholds are built
    before the first query; a rejected query ends the tick in the [catch]
    block, with what an earlier query wrote left in place. *)
Definition cleanupTick (heartbeatTimeoutSec sessionCloseMin : Z) : Async unit :=
  now ← Date_now;
  let inactiveDate := new_Date (inactiveThreshold now heartbeatTimeoutSec) in
  let closeDate := new_Date (closeThreshold now sessionCloseMin) in
  try_catch
    (inactiveCount ← (threshold ← date_argument inactiveDate; markInactive threshold);
     closedCount ← (threshold ← date_argument closeDate; markClosed threshold);
     if bool_decide (inactiveCount ≠ 0%nat) || bool_decide (closedCount ≠ 0%nat)
     then logger LInfo ("Cleanup job: " +:+ pretty inactiveCount +:+ " inactive, "
                        +:+ pretty closedCount +:+ " closed sessions")
     else mret tt)
    (λ errMsg, logger LError ("Cleanup job failed: " +:+ errMsg)).

Definition finite (n : number) : Z :=
  match n with Num z => z | NaN => 0 end.

Definition startCleanupJob (env : EnvConfig) : Async ScheduledTask :=
  let heartbeatTimeoutSec := heartbeatTimeoutSeconds env in
  let sessionCloseMin := sessionCloseMinutes env in
  if Number_isNaN heartbeatTimeoutSec || Number_isNaN sessionCloseMin then
    logger LError
      "Invalid cleanup config: heartbeatTimeoutSeconds or sessionCloseMinutes is NaN";;
    let noop := schedule (mret tt) in
    mret (stop noop)
  else
    mret (schedule (cleanupTick (finite heartbeatTimeoutSec) (finite sessionCloseMin))).

(** ** services/n8nService.ts *)

(** What the service needs from outside the repository: the serializer of
    the runtime, and the webhook behind [axios.post] (its answer to a body
    and the time the call takes, in milliseconds). *)
Record Externals := {
  JSON_stringify : json → string;
  axios_post : N8nBody → AxiosOutcome;
  round_trip : N8nBody → N;
}.

(** [data?.name]: defined only on objects; the last binding of a repeated
    key is the one a parsed object keeps. *)
Definition get_field (name : string) (data : json) : option json :=
  match data with
  | JObj fields => snd <$> last (filter (λ kv, kv.1 = name) fields)
  | _ => None
  end.

(** [a ?? b]: [b] when [a] is undefined or null. *)
Definition nullish_or (a : option json) (b : json) : json :=
  match a with
  | None | Some JNull => b
  | Some v => v
  end.

Definition apology : string :=
  "I'm having trouble connecting to my brain right now. Please try again shortly.".

Definition extract_output (ext : Externals) (data : json) : json :=
  nullish_or (get_field "output" data)
    (nullish_or (get_field "text" data)
       (nullish_or (get_field "message" data)
          (match data with
           | JStr _ => data
           | _ => JStr (JSON_stringify ext data)
           end))).

Definition timeout : N := 60000.

(** [axios.post(url, body, { timeout })]: the call is recorded, time
    passes, and the promise resolves with the response body or rejects. *)
Definition post (ext : Externals) (body : N8nBody) : Async json := λ w,
  let took := N.min (round_trip ext body) timeout in
  let w' := set_clock (λ t, t + Z.of_N took) (set_posts (λ ps, ps ++ [body]) w) in
  if decide (timeout < round_trip ext body)%N
  then (w', Thrown "timeout of 60000ms exceeded")
  else match axios_post ext body with
       | Resolved data => (w', Returned data)
       | Rejected msg => (w', Thrown msg)
       end.

(** The value handed back is whatever JavaScript value the chain selects;
    the declared type of the source is [Promise<string>]. *)
Definition sendToN8n (ext : Externals) (payload : N8nPayload) : Async json :=
  try_catch
    (data ← post ext {| body_sessionId := n8n_sessionId payload;
                        chatInput := n8n_message payload;
                        body_history := n8n_history payload;
                        body_metadata := default JNull (n8n_metadata payload) |};
     mret (extract_output ext data))
    (λ errMsg,
       logger LError ("Error connecting to n8n: " +:+ errMsg);;
       mret (JStr apology)).

(** ** services/socketManager.ts *)

(** Truthiness of an optional string: undefined and the empty string are
    falsy. *)
Definition truthy (s : option string) : bool :=
  match s with
  | Some v => bool_decide (v ≠ "")
  | None => false
  end.

(** [a || b] and [a ?? b] on optional strings. *)
Definition or_else (a b : option string) : option string :=
  if truthy a then a else b.
Definition coalesce (a b : option string) : option string :=
  match a with Some _ => a | None => b end.

(** [String.prototype.trim] strips the code points of WhiteSpace and
    LineTerminator at both ends: U+0009 to U+000D, U+0020, U+00A0, U+1680,
    U+2000 to U+200A, U+2028, U+2029, U+202F, U+205F, U+3000 and U+FEFF.
    Their UTF-8 encodings: *)
Definition white_space : list (list ascii) :=
  [ ["009"]; ["010"]; ["011"]; ["012"]; ["013"]; [" "];
    ["194"; "160"];
    ["225"; "154"; "128"];
    ["226"; "128"; "128"]; ["226"; "128"; "129"]; ["226"; "128"; "130"];
    ["226"; "128"; "131"]; ["226"; "128"; "132"]; ["226"; "128"; "133"];
    ["226"; "128"; "134"]; ["226"; "128"; "135"]; ["226"; "128"; "136"];
    ["226"; "128"; "137"]; ["226"; "128"; "138"];
    ["226"; "128"; "168"]; ["226"; "128"; "169"];
    ["226"; "128"; "175"];
    ["226"; "129"; "159"];
    ["227"; "128"; "128"];
    ["239"; "187"; "191"] ]%char.

(** What follows the prefix [p] in [s], when [s] starts with [p]. *)
Fixpoint behind (p s : list ascii) : option (list ascii) :=
  match p, s with
  | [], _ => Some s
  | a :: p', b :: s' => if decide (a = b) then behind p' s' else None
  | _ :: _, [] => None
  end.

(** What follows the leading code of [s], when it starts with one of
    [codes]. *)
Fixpoint skip_one (codes : list (list ascii)) (s : list ascii) : option (list ascii) :=
  match codes with
  | [] => None
  | p :: others =>
      match behind p s with
      | Some rest => Some rest
      | None => skip_one others s
      end
  end.

(** Up to [n] leading codes skipped; a string has no more codes than
    bytes. *)
Fixpoint skip_all (n : nat) (codes : list (list ascii)) (s : list ascii) : list ascii :=
  match n with
  | O => s
  | S n' =>
      match skip_one codes s with
      | Some rest => skip_all n' codes rest
      | None => s
      end
  end.

Definition trim_start (s : string) : string :=
  let l := String.list_ascii_of_string s in
  String.string_of_list_ascii (skip_all (length l) white_space l).

(** The trailing white space is the leading white space of the string read
    backwards. *)
Definition trim_end (s : string) : string :=
  let l := reverse (String.list_ascii_of_string s) in
  String.string_of_list_ascii
    (reverse (skip_all (length l) (reverse <$> white_space) l)).

Definition trim (s : string) : string := trim_end (trim_start s).

Definition mapMessage (m : ChatMessage.t) : ChatMessageDto :=
  {| dto_id := ChatMessage.id m;
     sender := ChatMessage.role m;
     dto_content := ChatMessage.content m;
     createdAt := ChatMessage.created_at m |}.

Definition getHistory (sessionId : string) (limit : nat) : Async (list ChatMessageDto) :=
  messages ← chatMessage_findMany_asc sessionId (Some limit);
  mret (mapMessage <$> messages).

(** The default value of [limit]. *)
Definition default_limit : nat := 100.

Definition toHistoryEntry (m : ChatMessageDto) : N8nHistoryEntry :=
  {| h_sender := sender m; h_content := dto_content m; h_createdAt := createdAt m |}.

(** [data] of an update that refreshes the activity instant and sets the
    status. *)
Definition touch (now : Z) (st : chat_session_status) (r : ChatSession.row)
    : ChatSession.row :=
  {| ChatSession.visitor_id := ChatSession.visitor_id r;
     ChatSession.status := st;
     ChatSession.last_active_at := now;
     ChatSession.created_at := ChatSession.created_at r |}.

(** [data: { last_active_at: new Date() }] of the REST heartbeat. *)
Definition refresh (now : Z) (r : ChatSession.row) : ChatSession.row :=
  touch now (ChatSession.status r) r.

Definition is_open_session_of (visitorId : string) (r : ChatSession.row) : bool :=
  bool_decide (ChatSession.visitor_id r = visitorId)
  && bool_decide (ChatSession.status r ≠ CLOSED).

Definition ensureSession (visitorId : string) (requestedSessionId : option string)
    : Async ChatSession.t :=
  reusable ←
    (if truthy requestedSessionId then
       session ← chatSession_findUnique (default "" requestedSessionId);
       mret (match session with
             | Some s =>
                 if decide (ChatSession.status (ChatSession.columns s) ≠ CLOSED)
                 then Some s else None
             | None => None
             end)
     else mret None);
  match reusable with
  | Some session => mret session
  | None =>
      existing ← chatSession_findFirst_desc (is_open_session_of visitorId);
      match existing with
      | Some session => mret session
      | None => chatSession_create visitorId ACTIVE
      end
  end.

(** *** Socket operations *)

Definition push (ev : ServerEvent) (s : Socket) : Socket :=
  {| data_sessionId := data_sessionId s; data_visitorId := data_visitorId s;
     rooms := rooms s; outbox := outbox s ++ [ev];
     listening := listening s; connected := connected s |}.

Definition with_rooms (f : gset string → gset string) (s : Socket) : Socket :=
  {| data_sessionId := data_sessionId s; data_visitorId := data_visitorId s;
     rooms := f (rooms s); outbox := outbox s;
     listening := listening s; connected := connected s |}.

Definition with_sessionId (v : option string) (s : Socket) : Socket :=
  {| data_sessionId := v; data_visitorId := data_visitorId s;
     rooms := rooms s; outbox := outbox s;
     listening := listening s; connected := connected s |}.

Definition with_visitorId (v : option string) (s : Socket) : Socket :=
  {| data_sessionId := data_sessionId s; data_visitorId := v;
     rooms := rooms s; outbox := outbox s;
     listening := listening s; connected := connected s |}.

Definition with_listening (s : Socket) : Socket :=
  {| data_sessionId := data_sessionId s; data_visitorId := data_visitorId s;
     rooms := rooms s; outbox := outbox s;
     listening := true; connected := connected s |}.

Definition closed_socket (s : Socket) : Socket :=
  {| data_sessionId := data_sessionId s; data_visitorId := data_visitorId s;
     rooms := ∅; outbox := outbox s;
     listening := listening s; connected := false |}.

Definition new_socket : Socket :=
  {| data_sessionId := None; data_visitorId := None; rooms := ∅; outbox := [];
     listening := false; connected := true |}.

Definition on_socket (c : nat) (f : Socket → Socket) : Async unit :=
  modify (set_sockets (alter f c)).

Definition socket_emit (c : nat) (ev : ServerEvent) : Async unit :=
  on_socket c (push ev).

(** [io.to(room).emit(...)]: every socket that joined the room. *)
Definition deliver (room : string) (ev : ServerEvent) (s : Socket) : Socket :=
  if decide (room ∈ rooms s) then push ev s else s.

Definition io_to_emit (room : string) (ev : ServerEvent) : Async unit :=
  modify (set_sockets (fmap (deliver room ev))).

Definition socket_join (c : nat) (room : string) : Async unit :=
  on_socket c (with_rooms (λ rs, {[room]} ∪ rs)).
Definition socket_leave (c : nat) (room : string) : Async unit :=
  on_socket c (with_rooms (λ rs, rs ∖ {[room]})).
Definition socket_disconnect (c : nat) : Async unit :=
  on_socket c closed_socket.

Definition socket_data_sessionId (c : nat) : Async (option string) :=
  gets (λ w, sockets w !! c ≫= data_sessionId).

(** *** Event handlers *)

Record Handshake := {
  auth_visitorId : option string;
  query_visitorId : option string;
  auth_sessionId : option string;
  query_sessionId : option string;
}.

Definition registerSocketEvents (c : nat) : Async unit :=
  on_socket c with_listening.

Definition handleConnection (c : nat) (handshake : Handshake) : Async unit :=
  let claimed := or_else (auth_visitorId handshake) (query_visitorId handshake) in
  visitorId ← (if truthy claimed then mret (default "" claimed) else uuid);
  let requestedSessionId :=
    or_else (auth_sessionId handshake) (query_sessionId handshake) in
  try_catch
    (session ← ensureSession visitorId requestedSessionId;
     let sid := ChatSession.id session in
     on_socket c (with_sessionId (Some sid));;
     on_socket c (with_visitorId (Some visitorId));;
     socket_join c sid;;
     registerSocketEvents c;;
     socket_emit c
       (EvSession sid visitorId (ChatSession.status (ChatSession.columns session)));;
     history ← getHistory sid default_limit;
     match history with
     | [] => mret tt
     | _ => socket_emit c (EvHistory history)
     end;;
     now ← Date_now;
     chatSession_update sid (touch now ACTIVE);;
     mret tt)
    (λ _,
       logger LError "Socket connection failed";;
       socket_emit c
         (EvError "Unable to start chat session. Please refresh and try again.");;
       socket_disconnect c).

(** [io.on('connection', ...)]: the transport hands over a new socket. *)
Definition on_connection (c : nat) (handshake : Handshake) : Async unit :=
  modify (set_sockets <[c := new_socket]>);;
  handleConnection c handshake.

(** [!session || session.status === CLOSED] *)
Definition missing_or_closed (session : option ChatSession.t) : bool :=
  match session with
  | None => true
  | Some s => bool_decide (ChatSession.status (ChatSession.columns s) = CLOSED)
  end.

Definition on_message (ext : Externals) (c : nat) (payload : IncomingMessagePayload)
    : Async unit :=
  bound ← socket_data_sessionId c;
  let resolved := coalesce (msg_sessionId payload) bound in
  if negb (truthy resolved) then
    logger LWarn "No sessionId available";;
    socket_emit c (EvError "Session not established yet.")
  else
    let sessionId := default "" resolved in
    let trimmed := trim <$> msg_content payload in
    if negb (truthy trimmed) then
      logger LWarn "Empty content received"
    else
      let content := default "" trimmed in
      try_catch
        (session ← chatSession_findUnique sessionId;
         if missing_or_closed session then
           socket_emit c (EvStatus CLOSED)
         else
             userMessage ← chatMessage_create sessionId USER content;
             io_to_emit sessionId (EvMessage (mapMessage userMessage));;
             now ← Date_now;
             chatSession_update sessionId (touch now ACTIVE);;
             historyForBrain ← getHistory sessionId 50;
             aiReply ← sendToN8n ext
               {| n8n_sessionId := sessionId;
                  n8n_message := content;
                  n8n_history := toHistoryEntry <$> historyForBrain;
                  n8n_metadata := msg_metadata payload |};
             (* [aiReply.substring(0, 100)] exists on strings only *)
             reply ← match aiReply with
                     | JStr s => mret s
                     | _ => throw "aiReply.substring is not a function"
                     end;
             aiMessage ← chatMessage_create sessionId BOT reply;
             io_to_emit sessionId (EvMessage (mapMessage aiMessage)))
        (λ _,
           logger LError "Error handling message event";;
           socket_emit c
             (EvError "Unable to send message right now. Please try again.")).

Definition on_heartbeat (c : nat) (payload_sessionId : option string) : Async unit :=
  bound ← socket_data_sessionId c;
  let resolved := coalesce payload_sessionId bound in
  if negb (truthy resolved) then mret tt
  else
    let sessionId := default "" resolved in
    try_catch
      (now ← Date_now;
       chatSession_update sessionId (touch now ACTIVE);;
       mret tt)
      (λ _, logger LWarn "Failed to record heartbeat").

Definition on_endSession (c : nat) (payload_sessionId : option string) : Async unit :=
  bound ← socket_data_sessionId c;
  let resolved := coalesce payload_sessionId bound in
  if negb (truthy resolved) then
    logger LWarn "endSession called but no sessionId available"
  else
    let sessionId := default "" resolved in
    try_catch
      (now ← Date_now;
       chatSession_update sessionId (touch now CLOSED);;
       chatMessage_create sessionId SYSTEM "Chat session ended by user.";;
       socket_emit c
         (EvSessionClosed sessionId
            "Session ended successfully. You can start a new conversation.");;
       socket_leave c sessionId;;
       on_socket c (with_sessionId None))
      (λ _,
         logger LError "Error ending session";;
         socket_emit c (EvError "Failed to end session. Please try again.")).

(** ** server.ts: the heartbeat route *)

Inductive HttpResponse :=
| Json200 (id : string) (lastActiveAt : Z) (st : chat_session_status)
| Json500 (error : string).

Definition patch_heartbeat (id : string) : Async HttpResponse :=
  try_catch
    (now ← Date_now;
     session ← chatSession_update id (refresh now);
     mret (Json200 (ChatSession.id session)
             (ChatSession.last_active_at (ChatSession.columns session))
             (ChatSession.status (ChatSession.columns session))))
    (λ errMsg,
       logger LError ("Failed to update heartbeat: " +:+ errMsg);;
       mret (Json500 "Failed to update heartbeat")).

(** ** Operations of the running system *)

Inductive Operation :=
| OpMessage (c : nat) (payload : IncomingMessagePayload)
| OpHeartbeat (c : nat) (sessionId : option string)
| OpEndSession (c : nat) (sessionId : option string)
| OpTick (heartbeatTimeoutSec sessionCloseMin : Z)
| OpRestHeartbeat (id : string).

(** Socket events reach a handler only once [registerSocketEvents] has run
    on that socket. *)
Definition when_listening (c : nat) (h : Async unit) : Async unit :=
  l ← gets (λ w, listening <$> sockets w !! c);
  if decide (l = Some true) then h else mret tt.

Definition perform (ext : Externals) (op : Operation) : Async unit :=
  match op with
  | OpMessage c payload => when_listening c (on_message ext c payload)
  | OpHeartbeat c sid => when_listening c (on_heartbeat c sid)
  | OpEndSession c sid => when_listening c (on_endSession c sid)
  | OpTick hb cm => fire (schedule (cleanupTick hb cm))
  | OpRestHeartbeat id => patch_heartbeat id;; mret tt
  end.

(** * Vocabulary of the properties *)

Definition status_of (w : World) (id : string) : option chat_session_status :=
  ChatSession.status <$> chatSession w !! id.

Definition outbox_of (w : World) (c : nat) : list ServerEvent :=
  default [] (outbox <$> sockets w !! c).

Definition bound_of (w : World) (c : nat) : option string :=
  sockets w !! c ≫= data_sessionId.

(** The session id an event resolves to: the override of the event, else
    the id bound to the socket. *)
Definition resolved_id (w : World) (c : nat) (override : option string) : option string :=
  coalesce override (bound_of w c).

(** The content of a message event after trimming; empty when the event
    carries none. *)
Definition trimmed_content (payload : IncomingMessagePayload) : string :=
  default "" (trim <$> msg_content payload).

(** Nothing was persisted or sent to the webhook between two worlds. *)
Definition nothing_persisted (w w' : World) : Prop :=
  chatSession w' = chatSession w ∧ chatMessage w' = chatMessage w ∧ posts w' = posts w.

(** The messages of a session in ascending creation order, without a
    limit: what [GET /api/sessions/:id/messages] lists. *)
Definition history_asc (sid : string) (w : World) : list ChatMessage.t :=
  order_asc (of_session sid (chatMessage w)).

(** The trailing window of the glossary: the [n] most recent entries of an
    ascending listing. *)
Definition trailing_window {A} (n : nat) (l : list A) : list A :=
  drop (length l - n) l.

(** What one tick does to a row: the second update applied to the result
    of the first. *)
Definition sweep_row (now hb cm : Z) (r : ChatSession.row) : ChatSession.row :=
  apply_where (is_open_before (closeThreshold now cm)) (set_status CLOSED)
    (apply_where (is_active_before (inactiveThreshold now hb)) (set_status INACTIVE) r).

(** CLOSED is terminal under an operation: no closed row is written. *)
Definition closed_is_terminal (ext : Externals) (op : Operation) (w : World) : Prop :=
  ∀ id r, chatSession w !! id = Some r → ChatSession.status r = CLOSED →
          chatSession (run (perform ext op) w) !! id = Some r.

(** An instant that a [Date] can hold. *)
Definition valid_date (t : Z) : Prop :=
  -8640000000000000 ≤ t ≤ 8640000000000000.

(** A setting that is a valid non-negative number. *)
Definition valid_non_negative (n : number) : Prop :=
  match n with
  | Num z => 0 ≤ z
  | NaN => False
  end.

(** A task that never touches the store: it is stopped, and letting the
    schedule come due changes neither table. *)
Definition idle (t : ScheduledTask) : Prop :=
  running t = false ∧
  ∀ w, chatSession (run (fire t) w) = chatSession w
       ∧ chatMessage (run (fire t) w) = chatMessage w.

(** [startCleanupJob] refuses to run: it hands back an idle task and leaves
    one error entry in the log. *)
Definition refuses_to_run (env : EnvConfig) (w : World) : Prop :=
  ∃ t e, result (startCleanupJob env) w = Returned t
         ∧ idle t
         ∧ logs (run (startCleanupJob env) w) = logs w ++ [e]
         ∧ level e = LError.

(** The body [sendToN8n] posts for a payload, and the value it hands back
    for that body: the apology when the call times out or is rejected,
    the extracted output otherwise. *)
Definition body_of (payload : N8nPayload) : N8nBody :=
  {| body_sessionId := n8n_sessionId payload;
     chatInput := n8n_message payload;
     body_history := n8n_history payload;
     body_metadata := default JNull (n8n_metadata payload) |}.

Definition reply_of (ext : Externals) (body : N8nBody) : json :=
  if decide (timeout < round_trip ext body)%N then JStr apology
  else match axios_post ext body with
       | Resolved data => extract_output ext data
       | Rejected _ => JStr apology
       end.

Definition is_string (v : json) : Prop := ∃ s, v = JStr s.

(** A field that [??] passes over: undefined or null. *)
Definition absent (name : string) (data : json) : Prop :=
  get_field name data = None ∨ get_field name data = Some JNull.

(** The response itself if it is a string, its serialization otherwise. *)
Definition literal_rendering (ext : Externals) (data : json) : string :=
  match data with
  | JStr s => s
  | _ => JSON_stringify ext data
  end.

(** The rows the handlers insert, as the store fills them in. *)
Definition new_message (w : World) (sid : string) (r : message_role) (c : string)
    : ChatMessage.t :=
  {| ChatMessage.id := "id-" +:+ pretty (issued w);
     ChatMessage.session_id := sid;
     ChatMessage.role := r;
     ChatMessage.content := c;
     ChatMessage.created_at := clock w |}.

Definition session_closed_event (sid : string) : ServerEvent :=
  EvSessionClosed sid "Session ended successfully. You can start a new conversation.".

Definition unresolvable_error : ServerEvent :=
  EvError "Session not established yet.".

(** A socket to which the events [evs] have been emitted: they are the new
    end of its outbox, and nothing else about it has changed. *)
Definition received (evs : list ServerEvent) (s : Socket) : Socket :=
  {| data_sessionId := data_sessionId s; data_visitorId := data_visitorId s;
     rooms := rooms s; outbox := outbox s ++ evs;
     listening := listening s; connected := connected s |}.

(** Between two worlds socket [c] has received the events [evs], and no
    other socket has received anything or changed. *)
Definition only_sender_hears (c : nat) (evs : list ServerEvent) (w w' : World) : Prop :=
  ∀ c', sockets w' !! c'
        = (λ s, if decide (c' = c) then received evs s else s) <$> sockets w !! c'.



(** A message event that relies on the id bound to the socket. *)
Definition plain_message (text : string) : IncomingMessagePayload :=
  {| msg_sessionId := None; msg_content := Some text; msg_metadata := None |}.

(** The world once the handler has stored and broadcast the USER message
    and marked the session ACTIVE, and the request it then builds for the
    responder. *)
Definition after_user_message (w : World) (sid content : string) (r : ChatSession.row)
    : World :=
  set_chatSession <[sid := touch (clock w) ACTIVE r]>
    (set_sockets (fmap (deliver sid (EvMessage (mapMessage (new_message w sid USER content)))))
       (set_chatMessage (λ ms, ms ++ [new_message w sid USER content])
          (set_issued S w))).

Definition brain_request (w : World) (sid content : string) (metadata : option json)
    : N8nPayload :=
  {| n8n_sessionId := sid;
     n8n_message := content;
     n8n_history :=
       toHistoryEntry <$>
         (mapMessage <$>
            take 50 (order_asc (of_session sid
                       (chatMessage w ++ [new_message w sid USER content]))));
     n8n_metadata := metadata |}.

(** How long a webhook call keeps the handler waiting, and the BOT row
    stored for a reply that arrives after it. *)
Definition call_duration (ext : Externals) (body : N8nBody) : Z :=
  Z.of_N (N.min (round_trip ext body) timeout).

Definition bot_message (w : World) (sid reply : string) (elapsed : Z) : ChatMessage.t :=
  {| ChatMessage.id := "id-" +:+ pretty (S (issued w));
     ChatMessage.session_id := sid;
     ChatMessage.role := BOT;
     ChatMessage.content := reply;
     ChatMessage.created_at := clock w + elapsed |}.

(** The outcome of an accepted message event: the body posted for it, the
    BOT rows stored after the USER row (one when the client hands back a
    string, none otherwise), and the sockets after the broadcasts. *)
Definition turn_body (w : World) (sid : string) (payload : IncomingMessagePayload)
    : N8nBody :=
  body_of (brain_request w sid (trimmed_content payload) (msg_metadata payload)).

Definition turn_user (w : World) (sid : string) (payload : IncomingMessagePayload)
    : ChatMessage.t :=
  new_message w sid USER (trimmed_content payload).

Definition turn_bot (ext : Externals) (w : World) (sid : string)
    (payload : IncomingMessagePayload) (reply : string) : ChatMessage.t :=
  bot_message w sid reply (call_duration ext (turn_body w sid payload)).

Definition turn_replies (ext : Externals) (w : World) (sid : string)
    (payload : IncomingMessagePayload) : list ChatMessage.t :=
  match reply_of ext (turn_body w sid payload) with
  | JStr reply => [turn_bot ext w sid payload reply]
  | _ => []
  end.

Definition turn_sockets (ext : Externals) (c : nat) (w : World) (sid : string)
    (payload : IncomingMessagePayload) : gmap nat Socket :=
  let echoed :=
    deliver sid (EvMessage (mapMessage (turn_user w sid payload))) <$> sockets w in
  match reply_of ext (turn_body w sid payload) with
  | JStr reply =>
      deliver sid (EvMessage (mapMessage (turn_bot ext w sid payload reply))) <$> echoed
  | _ =>
      alter (push (EvError "Unable to send message right now. Please try again.")) c
        echoed
  end.

(** Well-formed worlds: no stored message is dated after the clock, and a
    socket bound to a session is in the room of that session. *)
Definition no_future_messages (w : World) : Prop :=
  ∀ m, m ∈ chatMessage w → ChatMessage.created_at m ≤ clock w.

Definition socket_in_own_room (s : Socket) : Prop :=
  ∀ sid, data_sessionId s = Some sid → sid ∈ rooms s.

Definition bound_in_room (w : World) : Prop :=
  ∀ c s, sockets w !! c = Some s → socket_in_own_room s.

(** Ascending by creation instant. *)
Definition created_le (a b : ChatMessage.t) : Prop :=
  ChatMessage.created_at a ≤ ChatMessage.created_at b.

(** Session resolution. The identifier the store gives to the next row;
    the session a claimed id can be reused for (supplied, stored and not
    CLOSED); the sessions of a visitor that are not CLOSED. *)
Definition next_id (w : World) : string := "id-" +:+ pretty (issued w).

Definition claim_reusable (w : World) (requested : option string) (s : ChatSession.t)
    : Prop :=
  requested = Some (ChatSession.id s) ∧ ChatSession.id s ≠ ""
  ∧ chatSession w !! ChatSession.id s = Some (ChatSession.columns s)
  ∧ ChatSession.status (ChatSession.columns s) ≠ CLOSED.

Definition open_session_of (w : World) (visitorId : string) (s : ChatSession.t) : Prop :=
  chatSession w !! ChatSession.id s = Some (ChatSession.columns s)
  ∧ ChatSession.visitor_id (ChatSession.columns s) = visitorId
  ∧ ChatSession.status (ChatSession.columns s) ≠ CLOSED.

Definition created (s : ChatSession.t) : Z :=
  ChatSession.created_at (ChatSession.columns s).

Definition claimed_session (w : World) (requested : option string)
    : option ChatSession.t :=
  if truthy requested then
    match chatSession w !! default "" requested with
    | Some r => if decide (ChatSession.status r ≠ CLOSED)
                then Some (with_key (default "" requested, r)) else None
    | None => None
    end
  else None.

Definition open_sessions_of (w : World) (visitorId : string) : list ChatSession.t :=
  filter (λ s, is_open_session_of visitorId (ChatSession.columns s) = true)
         (with_key <$> map_to_list (chatSession w)).

(** The session [create] stores for a visitor, and the world after it. *)
Definition created_session (w : World) (visitorId : string) : ChatSession.t :=
  with_key (next_id w, {| ChatSession.visitor_id := visitorId;
                          ChatSession.status := ACTIVE;
                          ChatSession.last_active_at := clock w;
                          ChatSession.created_at := clock w |}).

Definition after_create (w : World) (visitorId : string) : World :=
  set_chatSession
    <[next_id w := ChatSession.columns (created_session w visitorId)]>
    (set_issued S w).

(** History replay on connect: the rows delivered and the rows left out. *)
Definition replayed (sid : string) (w : World) : list ChatMessage.t :=
  take default_limit (history_asc sid w).

Definition left_out (sid : string) (w : World) : list ChatMessage.t :=
  drop default_limit (history_asc sid w).

Definition history_events (rows : list ChatMessage.t) : list ServerEvent :=
  match rows with
  | [] => []
  | _ => [EvHistory (mapMessage <$> rows)]
  end.

(** The socket of a connection once the handshake is over. *)
Definition handshaken_socket (sid visitorId : string) (sent : list ServerEvent) : Socket :=
  {| data_sessionId := Some sid; data_visitorId := Some visitorId;
     rooms := {[sid]} ∪ ∅; outbox := sent;
     listening := true; connected := true |}.

(** ** Sample data *)

Definition mk_row (v : string) (st : chat_session_status) (la ca : Z) : ChatSession.row :=
  {| ChatSession.visitor_id := v; ChatSession.status := st;
     ChatSession.last_active_at := la; ChatSession.created_at := ca |}.

Definition mk_world (ss : gmap string ChatSession.row) (ms : list ChatMessage.t)
    (sk : gmap nat Socket) (now : Z) : World :=
  {| chatSession := ss; chatMessage := ms; sockets := sk; clock := now;
     issued := 0; posts := []; logs := [] |}.

(** A socket after a successful handshake on session [sid]. *)
Definition bound_socket (visitor sid : string) : Socket :=
  {| data_sessionId := Some sid; data_visitorId := Some visitor;
     rooms := {[sid]}; outbox := []; listening := true; connected := true |}.

(** A webhook that answers every call with [data] after 250 ms. *)
Definition webhook (data : json) : Externals :=
  {| JSON_stringify := λ _, "{}";
     axios_post := λ _, Resolved data;
     round_trip := λ _, 250%N |}.

Definition sample_sessions : gmap string ChatSession.row :=
  {[ "s-active" := mk_row "v1" ACTIVE 880000 1000;
     "s-idle" := mk_row "v2" ACTIVE 700000 2000;
     "s-stale" := mk_row "v3" ACTIVE 50000 3000;
     "s-now" := mk_row "v4" ACTIVE 1000000 4000;
     "s-closed" := mk_row "v1" CLOSED 1000 500 ]}.

Definition sample_world : World :=
  mk_world sample_sessions []
    {[ 7%nat := bound_socket "v1" "s-active";
       8%nat := bound_socket "v1" "s-active";
       9%nat := bound_socket "v1" "s-closed" ]}
    1000000.

(** A session that has gone INACTIVE, open in two tabs of its visitor
    (sockets 1 and 2); socket 3 belongs to another visitor. *)
Definition quiet_world : World :=
  mk_world {[ "s-away" := mk_row "v6" INACTIVE 400000 2500;
              "s-other" := mk_row "v7" ACTIVE 990000 2600 ]}
    []
    {[ 1%nat := bound_socket "v6" "s-away";
       2%nat := bound_socket "v6" "s-away";
       3%nat := bound_socket "v7" "s-other" ]}
    1000000.

(** A webhook that answers with a number where the reply is expected. *)
Definition numeric_webhook : Externals := webhook (JObj [("output", JNum 42)]).

(** Text that is blank without an ASCII space in it: a no-break space
    (U+00A0) and an ideographic space (U+3000). *)
Definition blank_text : string :=
  String "194" (String "160" (String "227" (String "128" (String "128" "")))).

Definition env_negative : EnvConfig :=
  {| heartbeatTimeoutSeconds := Num (-5); sessionCloseMinutes := Num 15 |}.

(** An inactivity timeout of 10^13 seconds: a number, but 10^16
    milliseconds before any instant of the clock there is no date. *)
Definition env_huge : EnvConfig :=
  {| heartbeatTimeoutSeconds := Num 10000000000000; sessionCloseMinutes := Num 15 |}.

(** A message event that overrides the session id with the empty string. *)
Definition unaddressed_message (text : string) : IncomingMessagePayload :=
  {| msg_sessionId := Some ""; msg_content := Some text; msg_metadata := None |}.

Definition env_nan : EnvConfig :=
  {| heartbeatTimeoutSeconds := NaN; sessionCloseMinutes := Num 15 |}.

(** A session with [n] messages created at the instants 1 to [n], and one
    socket connected to it. *)
Definition numbered_message (sid : string) (i : nat) : ChatMessage.t :=
  {| ChatMessage.id := "m-" +:+ pretty i;
     ChatMessage.session_id := sid;
     ChatMessage.role := if Nat.even i then BOT else USER;
     ChatMessage.content := "turn " +:+ pretty i;
     ChatMessage.created_at := Z.of_nat i |}.

Definition long_world (n : nat) : World :=
  mk_world {[ "s-long" := mk_row "v9" ACTIVE 1000 0 ]}
    (numbered_message "s-long" <$> seq 1 n)
    {[ 5%nat := bound_socket "v9" "s-long" ]}
    5000.

Definition returning_visitor : Handshake :=
  {| auth_visitorId := Some "v9"; query_visitorId := None;
     auth_sessionId := Some "s-long"; query_sessionId := None |}.

(** * The rest of the services *)

(** ** config/env.ts: loading the configuration *)

(** What the loader needs from the runtime: [Number] applied to a string,
    with integer-valued results as for [number]. *)
Definition NumberOf := string → number.

(** Synchronous code of the loader throws or returns. *)
Definition bind_outcome {A B} (m : Outcome A) (k : A → Outcome B) : Outcome B :=
  match m with
  | Returned a => k a
  | Thrown e => Thrown e
  end.

Definition requireString (value : option string) (key : string) : Outcome string :=
  if negb (truthy value) || negb (truthy (trim <$> value))
  then Thrown ("Missing required environment variable: " +:+ key)
  else Returned (trim (default "" value)).

Definition parseNumber (Number_ : NumberOf) (value : option string) (key : string)
    (fallback : number) : Outcome number :=
  if negb (truthy value) then Returned fallback
  else
    let parsed := Number_ (default "" value) in
    if Number_isNaN parsed
    then Thrown ("Environment variable " +:+ key +:+ " must be a valid number")
    else Returned parsed.

(** [s.split(',')]: the pieces between commas, one piece for a string
    without comma, the empty string included. *)
Fixpoint split_comma (s : string) : list string :=
  match s with
  | EmptyString => [EmptyString]
  | String a rest =>
      if Ascii.eqb a ","
      then EmptyString :: split_comma rest
      else match split_comma rest with
           | hd :: tl => String a hd :: tl
           | [] => [String a EmptyString]
           end
  end.

(** [rawOrigins.split(',').map(trim).filter(Boolean)] *)
Definition parseOrigins (rawOrigins : string) : list string :=
  filter (λ o, o ≠ "") (trim <$> split_comma rawOrigins).

(** The whole configuration; the two settings of the sweep job are the
    record the job reads. *)
Record LoadedEnv := {
  port : number;
  corsOrigins : list string;
  n8nWebhookUrl : string;
  databaseUrl : string;
  apiSecret : option string;
  cleanup : EnvConfig;
}.

(** The object literal exported as [env]: the fields are evaluated in
    order, the first throw ends the load. *)
Definition loadEnv (Number_ : NumberOf) (envSource : gmap string string)
    : Outcome LoadedEnv :=
  bind_outcome (parseNumber Number_ (envSource !! "PORT") "PORT" (Num 3001)) (λ port_,
  let origins := parseOrigins (default "" (envSource !! "CORS_ORIGIN")) in
  let corsOrigins_ :=
    match origins with
    | [] => ["http://localhost:3000"]
    | _ => origins
    end in
  bind_outcome (requireString (envSource !! "N8N_WEBHOOK_URL") "N8N_WEBHOOK_URL") (λ url,
  bind_outcome (requireString (envSource !! "DATABASE_URL") "DATABASE_URL") (λ db,
  let secret := or_else (trim <$> envSource !! "API_SECRET") None in
  bind_outcome (parseNumber Number_ (envSource !! "HEARTBEAT_TIMEOUT_SECONDS")
                  "HEARTBEAT_TIMEOUT_SECONDS" (Num 120)) (λ hb,
  bind_outcome (parseNumber Number_ (envSource !! "SESSION_CLOSE_MINUTES")
                  "SESSION_CLOSE_MINUTES" (Num 15)) (λ cm,
  Returned {| port := port_; corsOrigins := corsOrigins_; n8nWebhookUrl := url;
              databaseUrl := db; apiSecret := secret;
              cleanup := {| heartbeatTimeoutSeconds := hb;
                            sessionCloseMinutes := cm |} |}))))).

(** ** server.ts: middleware and REST routes *)

(** [origin: env.corsOrigins.length ? env.corsOrigins : '*'] *)
Inductive CorsOrigin := AnyOrigin | Origins (allowed : list string).

Definition cors_origin (env : LoadedEnv) : CorsOrigin :=
  match corsOrigins env with
  | [] => AnyOrigin
  | allowed => Origins allowed
  end.

Inductive Body :=
| BSessions (sessions : list ChatSession.t)
| BSession (session : ChatSession.t)
| BSessionWithMessages (session : ChatSession.t) (messages : list ChatMessage.t)
| BMessages (messages : list ChatMessage.t)
| BMessage (message : ChatMessage.t)
| BError (error : string).

Record Response := { code : nat; body : Body }.

Definition json_ (status : nat) (b : Body) : Async Response :=
  mret {| code := status; body := b |}.

(** [orderBy: { created_at: 'desc' }] on sessions; rows with equal instants
    keep the order of the table. *)
Fixpoint insert_desc (s : ChatSession.t) (l : list ChatSession.t) : list ChatSession.t :=
  match l with
  | [] => [s]
  | x :: rest =>
      if decide (created x ≤ created s)
      then s :: x :: rest
      else x :: insert_desc s rest
  end.

Definition order_desc (l : list ChatSession.t) : list ChatSession.t :=
  foldr insert_desc [] l.

Definition chatSession_findMany_desc (take_ : nat) : Async (list ChatSession.t) :=
  gets (λ w, take take_ (order_desc (with_key <$> map_to_list (chatSession w)))).

(** GET /api/sessions *)
Definition get_sessions : Async Response :=
  try_catch
    (sessions ← chatSession_findMany_desc 50;
     json_ 200 (BSessions sessions))
    (λ errMsg,
       logger LError ("Failed to fetch sessions: " +:+ errMsg);;
       json_ 500 (BError "Failed to fetch sessions")).

(** POST /api/sessions; the metadata column is not part of the rows. *)
Definition post_session (visitorId : option string) : Async Response :=
  try_catch
    (visitor ← (if truthy visitorId then mret (default "" visitorId) else uuid);
     session ← chatSession_create visitor ACTIVE;
     json_ 201 (BSession session))
    (λ errMsg,
       logger LError ("Failed to create session: " +:+ errMsg);;
       json_ 500 (BError "Failed to create session")).

(** GET /api/sessions/:id *)
Definition get_session (id : string) : Async Response :=
  try_catch
    (session ← chatSession_findUnique id;
     match session with
     | None => json_ 404 (BError "Session not found")
     | Some s =>
         messages ← chatMessage_findMany_asc id None;
         json_ 200 (BSessionWithMessages s messages)
     end)
    (λ errMsg,
       logger LError ("Failed to fetch session: " +:+ errMsg);;
       json_ 500 (BError "Failed to fetch session")).

(** GET /api/sessions/:id/messages *)
Definition get_messages (id : string) : Async Response :=
  try_catch
    (messages ← chatMessage_findMany_asc id None;
     json_ 200 (BMessages messages))
    (λ errMsg,
       logger LError ("Failed to fetch messages: " +:+ errMsg);;
       json_ 500 (BError "Failed to fetch messages")).

(** POST /api/sessions/:id/messages *)
Definition post_message (id : string) (content : option string) : Async Response :=
  try_catch
    (if negb (truthy content) then
       json_ 400 (BError "Message content is required")
     else
       session ← chatSession_findUnique id;
       match session with
       | None => json_ 404 (BError "Session not found")
       | Some _ =>
           message ← chatMessage_create id USER (default "" content);
           now ← Date_now;
           chatSession_update id (refresh now);;
           json_ 201 (BMessage message)
       end)
    (λ errMsg,
       logger LError ("Failed to save message: " +:+ errMsg);;
       json_ 500 (BError "Failed to save message")).

(** PATCH /api/sessions/:id/close *)
Definition patch_close (id : string) : Async Response :=
  try_catch
    (session ← chatSession_update id (set_status CLOSED);
     json_ 200 (BSession session))
    (λ errMsg,
       logger LError ("Failed to close session: " +:+ errMsg);;
       json_ 500 (BError "Failed to close session")).

(** ** socketManager.ts: the message handler across its first await

    The handler gives up control while its session lookup is pending. What
    runs once the lookup has answered [session], for the id and the
    trimmed content the handler has resolved before: the body of the [try]
    block from the CLOSED check on, with its [catch] block. *)
Definition on_message_resume (ext : Externals) (c : nat) (sessionId content : string)
    (metadata : option json) (session : option ChatSession.t) : Async unit :=
  try_catch
    (if missing_or_closed session then
       socket_emit c (EvStatus CLOSED)
     else
       userMessage ← chatMessage_create sessionId USER content;
       io_to_emit sessionId (EvMessage (mapMessage userMessage));;
       now ← Date_now;
       chatSession_update sessionId (touch now ACTIVE);;
       historyForBrain ← getHistory sessionId 50;
       aiReply ← sendToN8n ext
         {| n8n_sessionId := sessionId;
            n8n_message := content;
            n8n_history := toHistoryEntry <$> historyForBrain;
            n8n_metadata := metadata |};
       reply ← match aiReply with
               | JStr s => mret s
               | _ => throw "aiReply.substring is not a function"
               end;
       aiMessage ← chatMessage_create sessionId BOT reply;
       io_to_emit sessionId (EvMessage (mapMessage aiMessage)))
    (λ _,
       logger LError "Error handling message event";;
       socket_emit c
         (EvError "Unable to send message right now. Please try again.")).

(** What the lookup of the handler answers in a world. *)
Definition looked_up (w : World) (sessionId : string) : option ChatSession.t :=
  (λ r, with_key (sessionId, r)) <$> chatSession w !! sessionId.

(** ** Everything the server answers to *)

Inductive Request :=
| ReqConnection (c : nat) (handshake : Handshake)
| ReqOperation (op : Operation)
| ReqGetSessions
| ReqPostSession (visitorId : option string)
| ReqGetSession (id : string)
| ReqGetMessages (id : string)
| ReqPostMessage (id : string) (content : option string)
| ReqClose (id : string).

Definition serve (ext : Externals) (req : Request) : Async unit :=
  match req with
  | ReqConnection c handshake => on_connection c handshake
  | ReqOperation op => perform ext op
  | ReqGetSessions => get_sessions;; mret tt
  | ReqPostSession visitorId => post_session visitorId;; mret tt
  | ReqGetSession id => get_session id;; mret tt
  | ReqGetMessages id => get_messages id;; mret tt
  | ReqPostMessage id content => post_message id content;; mret tt
  | ReqClose id => patch_close id;; mret tt
  end.

Definition serve_all (ext : Externals) (reqs : list Request) (w : World) : World :=
  foldl (λ w req, run (serve ext req) w) w reqs.

(** The server at start-up: empty tables, no socket. *)
Definition initial_world (now : Z) : World :=
  mk_world ∅ [] ∅ now.

(** ** public/chat-widget.js: what the widget sends *)

Record Widget := {
  currentSessionId : option string;
  page : string;                       (* window.location.href *)
}.

(** [socket.on('session', ...)] *)
Definition widget_on_session (sessionId : string) (wd : Widget) : Widget :=
  {| currentSessionId := Some sessionId; page := page wd |}.

(** The submit listener of the form: the message event emitted for the
    text of the input field, if any. *)
Definition widget_submit (input : string) (wd : Widget) : option IncomingMessagePayload :=
  let value := trim input in
  if negb (truthy (Some value)) || negb (truthy (currentSessionId wd)) then None
  else Some {| msg_sessionId := currentSessionId wd;
               msg_content := Some value;
               msg_metadata := Some (JObj [("page", JStr (page wd))]) |}.

(** [sendHeartbeat]: the session id of the heartbeat event, if one is sent. *)
Definition widget_heartbeat (wd : Widget) : option (option string) :=
  if negb (truthy (currentSessionId wd)) then None
  else Some (currentSessionId wd).

(** ** Vocabulary of the further properties *)

(** The second world extends the first: no session row and no message is
    removed, stored messages are not rewritten, and what is appended is
    dated between the two clocks and belongs to a stored session. *)
Definition extends (w w' : World) : Prop :=
  dom (chatSession w) ⊆ dom (chatSession w')
  ∧ clock w ≤ clock w'
  ∧ ∃ added, chatMessage w' = chatMessage w ++ added
             ∧ ∀ m, m ∈ added →
                 clock w ≤ ChatMessage.created_at m ≤ clock w'
                 ∧ ChatMessage.session_id m ∈ dom (chatSession w').

(** Every message belongs to a stored session. *)
Definition no_orphan_messages (w : World) : Prop :=
  ∀ m, m ∈ chatMessage w → ChatMessage.session_id m ∈ dom (chatSession w).

(** Descending by creation instant. *)
Definition created_ge (a b : ChatSession.t) : Prop := created b ≤ created a.

(** A runtime whose [Number] reads the decimal digits of 300 and 30. *)
Definition sample_Number : NumberOf :=
  λ s, if decide (s = "300") then Num 300
       else if decide (s = "30") then Num 30 else NaN.

Definition sample_envSource : gmap string string :=
  {[ "N8N_WEBHOOK_URL" := " https://n8n.example/webhook/chat ";
     "DATABASE_URL" := "postgres://db";
     "CORS_ORIGIN" := "https://a.example, ,https://b.example,";
     "HEARTBEAT_TIMEOUT_SECONDS" := "300";
     "SESSION_CLOSE_MINUTES" := "" ]}.

(** * Proofs *)

Ltac async_unfold :=
  unfold run, result, try_catch, throw, Date_now, gets, logger, modify,
    mbind, mret, Async_bind, Async_ret in *.

(** ** The sweep job *)

Lemma is_open_before_spec t r :
  is_open_before t r = true ↔
  ChatSession.status r ≠ CLOSED ∧ ChatSession.last_active_at r < t.
Proof.
  unfold is_open_before. rewrite andb_true_iff, !bool_decide_eq_true.
  assert (ChatSession.status r ∈ [ACTIVE; INACTIVE] ↔ ChatSession.status r ≠ CLOSED)
    as ->; [|done].
  rewrite !elem_of_cons, elem_of_nil.
  destruct (ChatSession.status r); intuition congruence.
Qed.

Lemma is_active_before_spec t r :
  is_active_before t r = true ↔
  ChatSession.status r = ACTIVE ∧ ChatSession.last_active_at r < t.
Proof.
  unfold is_active_before. by rewrite andb_true_iff, !bool_decide_eq_true.
Qed.

Lemma new_Date_valid t : valid_date t → new_Date t = Some t.
Proof. intros Ht. unfold new_Date, max_time_value. by rewrite decide_True. Qed.

Lemma new_Date_Some t d : new_Date t = Some d → d = t.
Proof. unfold new_Date. destruct (decide _); congruence. Qed.

(** The session table after a tick: both updates when both thresholds are
    valid dates, the first one alone when only the close threshold is
    invalid, none when the inactivity threshold is invalid. *)
Lemma cleanupTick_chatSession hb cm w :
  chatSession (run (cleanupTick hb cm) w) =
    match new_Date (inactiveThreshold (clock w) hb),
          new_Date (closeThreshold (clock w) cm) with
    | Some _, Some _ => sweep_row (clock w) hb cm <$> chatSession w
    | Some _, None =>
        apply_where (is_active_before (inactiveThreshold (clock w) hb))
          (set_status INACTIVE) <$> chatSession w
    | None, _ => chatSession w
    end.
Proof.
  unfold cleanupTick, date_argument, markInactive, markClosed, chatSession_updateMany.
  async_unfold. cbn [fst snd clock].
  destruct (new_Date (inactiveThreshold _ _)) as [ti|] eqn:Hi; [|done].
  apply new_Date_Some in Hi as ->. cbn [fst snd clock set_chatSession].
  destruct (new_Date (closeThreshold _ _)) as [tc|] eqn:Hc; [|done].
  apply new_Date_Some in Hc as ->. cbn [fst snd].
  destruct (bool_decide _ || bool_decide _); cbn [fst snd chatSession set_chatSession set_logs];
    unfold sweep_row; by rewrite <- map_fmap_compose.
Qed.

Lemma cleanupTick_valid hb cm w :
  valid_date (clock w - hb * 1000) → valid_date (clock w - cm * 60 * 1000) →
  chatSession (run (cleanupTick hb cm) w) = sweep_row (clock w) hb cm <$> chatSession w.
Proof.
  intros Hi Hc. rewrite cleanupTick_chatSession.
  unfold inactiveThreshold, closeThreshold. by rewrite !new_Date_valid.
Qed.

Lemma cleanupTick_frame hb cm w :
  chatMessage (run (cleanupTick hb cm) w) = chatMessage w
  ∧ clock (run (cleanupTick hb cm) w) = clock w
  ∧ sockets (run (cleanupTick hb cm) w) = sockets w.
Proof.
  unfold cleanupTick, date_argument, markInactive, markClosed, chatSession_updateMany.
  async_unfold. cbn [fst snd clock].
  destruct (new_Date (inactiveThreshold _ _)) as [ti|]; [|done].
  cbn [fst snd clock set_chatSession].
  destruct (new_Date (closeThreshold _ _)) as [tc|]; [|done].
  cbn [fst snd].
  destruct (bool_decide _ || bool_decide _); done.
Qed.

Lemma markInactive_chatSession t w :
  chatSession (run (markInactive t) w)
  = apply_where (is_active_before t) (set_status INACTIVE) <$> chatSession w.
Proof. done. Qed.

Lemma sweep_row_cases now hb cm r :
  sweep_row now hb cm r =
    if is_open_before (closeThreshold now cm) r then set_status CLOSED r
    else if is_active_before (inactiveThreshold now hb) r then set_status INACTIVE r
    else r.
Proof.
  unfold sweep_row, apply_where.
  destruct (is_active_before _ r) eqn:Ha.
  - apply is_active_before_spec in Ha as [Hst Hlt].
    destruct (is_open_before _ r) eqn:Ho.
    + assert (is_open_before (closeThreshold now cm) (set_status INACTIVE r) = true) as ->.
      { apply is_open_before_spec. apply is_open_before_spec in Ho as [_ ?].
        split; [discriminate | done]. }
      by destruct r.
    + assert (is_open_before (closeThreshold now cm) (set_status INACTIVE r) = false) as ->; [|done].
      apply not_true_is_false. intros Ho'. apply not_true_iff_false in Ho. apply Ho.
      apply is_open_before_spec. apply is_open_before_spec in Ho' as [_ ?].
      split; [congruence | done].
  - done.
Qed.

Lemma sweep_row_closed now hb cm r :
  ChatSession.status r = CLOSED → sweep_row now hb cm r = r.
Proof.
  intros Hc. rewrite sweep_row_cases.
  destruct (is_open_before _ r) eqn:Ho.
  { apply is_open_before_spec in Ho as [Hn _]. by destruct Hn. }
  destruct (is_active_before _ r) eqn:Ha; [|done].
  apply is_active_before_spec in Ha as [Ha _]. congruence.
Qed.

Lemma sweep_row_idem now hb cm r :
  sweep_row now hb cm (sweep_row now hb cm r) = sweep_row now hb cm r.
Proof.
  rewrite (sweep_row_cases now hb cm r).
  destruct (is_open_before _ r) eqn:Ho.
  { by apply sweep_row_closed. }
  destruct (is_active_before _ r) eqn:Ha.
  - rewrite sweep_row_cases.
    assert (is_open_before (closeThreshold now cm) (set_status INACTIVE r) = false) as ->.
    { apply not_true_is_false. intros Ho'. apply not_true_iff_false in Ho. apply Ho.
      apply is_active_before_spec in Ha as [Hst _].
      apply is_open_before_spec. apply is_open_before_spec in Ho' as [_ ?].
      split; [congruence | done]. }
    assert (is_active_before (inactiveThreshold now hb) (set_status INACTIVE r) = false) as ->; [|done].
    apply not_true_is_false. intros Ha'. by apply is_active_before_spec in Ha' as [? _].
  - rewrite sweep_row_cases. by rewrite Ho, Ha.
Qed.

(** C2 fails as stated: an inactivity timeout of 10^13 seconds is a
    number, so the job is scheduled; the inactivity threshold of its tick
    lies outside the range of [Date], the first bulk update is rejected
    and the tick ends there. A session that is ACTIVE and older than the
    close threshold of 15 minutes is not CLOSED by that tick: the session
    table is left as it was and the failure is logged. *)
Lemma huge_timeout_abandons_tick :
  ∃ t, result (startCleanupJob env_huge) sample_world = Returned t
       ∧ running t = true
       ∧ chatSession sample_world !! "s-stale" = Some (mk_row "v3" ACTIVE 50000 3000)
       ∧ 50000 < clock sample_world - 15 * 60 * 1000
       ∧ chatSession (run (fire t) sample_world) !! "s-stale"
         = Some (mk_row "v3" ACTIVE 50000 3000)
       ∧ chatSession (run (fire t) sample_world) = chatSession sample_world
       ∧ level <$> logs (run (fire t) sample_world) = [LError].
Proof.
  exists (schedule (cleanupTick 10000000000000 15)).
  assert (chatSession (run (cleanupTick 10000000000000 15) sample_world)
          = chatSession sample_world) as Hsame.
  { by rewrite cleanupTick_chatSession. }
  split; [reflexivity|]. split; [reflexivity|].
  split; [vm_compute; reflexivity|]. split; [vm_compute; reflexivity|].
  unfold fire, schedule. cbn [running callback].
  split; [rewrite Hsame; vm_compute; reflexivity|]. split; [exact Hsame|].
  reflexivity.
Qed.

(** C2, amended. A tick whose two thresholds are valid dates reads the
    clock once and runs both bulk updates against that instant. For every
    stored session: the first update turns it INACTIVE when it is ACTIVE
    and its last activity is older than the inactivity timeout; after the
    tick it is CLOSED when it was ACTIVE or INACTIVE and older than the
    close threshold (straight from ACTIVE too), INACTIVE when it was
    ACTIVE, older than the inactivity timeout and not older than the close
    threshold, and untouched when it was CLOSED or matched neither
    update; a tick writes nothing but the status, neither adds nor removes
    a session, stores no message, and a second tick at the same instant
    leaves the table as the first one left it. *)
Theorem cleanupTick_sweeps (hb cm : Z) (w : World) (id : string) (r : ChatSession.row) :
  chatSession w !! id = Some r →
  valid_date (clock w - hb * 1000) → valid_date (clock w - cm * 60 * 1000) →
  let now := clock w in
  let w' := run (cleanupTick hb cm) w in
  (ChatSession.status r = ACTIVE →
   ChatSession.last_active_at r < now - hb * 1000 →
   chatSession (run (markInactive (inactiveThreshold now hb)) w) !! id
     = Some (mk_row (ChatSession.visitor_id r) INACTIVE
               (ChatSession.last_active_at r) (ChatSession.created_at r)))
  ∧ (ChatSession.status r = ACTIVE ∨ ChatSession.status r = INACTIVE →
     ChatSession.last_active_at r < now - cm * 60 * 1000 →
     chatSession w' !! id
     = Some (mk_row (ChatSession.visitor_id r) CLOSED
               (ChatSession.last_active_at r) (ChatSession.created_at r)))
  ∧ (ChatSession.status r = ACTIVE →
     ChatSession.last_active_at r < now - hb * 1000 →
     ¬ ChatSession.last_active_at r < now - cm * 60 * 1000 →
     chatSession w' !! id
     = Some (mk_row (ChatSession.visitor_id r) INACTIVE
               (ChatSession.last_active_at r) (ChatSession.created_at r)))
  ∧ (ChatSession.status r = CLOSED → chatSession w' !! id = Some r)
  ∧ (ChatSession.status r ≠ ACTIVE ∨ ¬ ChatSession.last_active_at r < now - hb * 1000 →
     ¬ ChatSession.last_active_at r < now - cm * 60 * 1000 →
     chatSession w' !! id = Some r)
  ∧ chatSession w' !! id = Some (sweep_row now hb cm r)
  ∧ (∃ st, chatSession w' !! id
           = Some (mk_row (ChatSession.visitor_id r) st
                     (ChatSession.last_active_at r) (ChatSession.created_at r)))
  ∧ dom (chatSession w') = dom (chatSession w)
  ∧ chatMessage w' = chatMessage w
  ∧ clock w' = now
  ∧ chatSession (run (cleanupTick hb cm) w') = chatSession w'.
Proof.
  intros Hr Hvi Hvc now w'. subst now w'.
  assert (chatSession (run (cleanupTick hb cm) w) !! id
          = Some (sweep_row (clock w) hb cm r)) as Hsweep.
  { by rewrite cleanupTick_valid, lookup_fmap, Hr. }
  change (mk_row (ChatSession.visitor_id r) INACTIVE
            (ChatSession.last_active_at r) (ChatSession.created_at r))
    with (set_status INACTIVE r).
  change (mk_row (ChatSession.visitor_id r) CLOSED
            (ChatSession.last_active_at r) (ChatSession.created_at r))
    with (set_status CLOSED r).
  split; [|split; [|split; [|split; [|split; [|split; [|split; [|split; [|split; [|split]]]]]]]]].
  - intros Hst Hlt. rewrite markInactive_chatSession, lookup_fmap, Hr. simpl.
    unfold apply_where.
    by rewrite (proj2 (is_active_before_spec (inactiveThreshold (clock w) hb) r)
                  (conj Hst Hlt)).
  - intros Hst Hlt. rewrite Hsweep, sweep_row_cases.
    rewrite (proj2 (is_open_before_spec (closeThreshold (clock w) cm) r)); [done|].
    split; [destruct Hst; congruence | done].
  - intros Hst Hlt Hnc. rewrite Hsweep, sweep_row_cases.
    destruct (is_open_before _ r) eqn:Ho.
    { apply is_open_before_spec in Ho as [_ ?]. done. }
    by rewrite (proj2 (is_active_before_spec (inactiveThreshold (clock w) hb) r)
                  (conj Hst Hlt)).
  - intros Hc. by rewrite Hsweep, sweep_row_closed.
  - intros Hni Hnc. rewrite Hsweep, sweep_row_cases.
    destruct (is_open_before _ r) eqn:Ho.
    { apply is_open_before_spec in Ho as [_ ?]. done. }
    destruct (is_active_before _ r) eqn:Ha; [|done].
    apply is_active_before_spec in Ha as [? ?]. by destruct Hni.
  - exact Hsweep.
  - rewrite Hsweep, sweep_row_cases.
    destruct (is_open_before _ r); [by exists CLOSED|].
    destruct (is_active_before _ r); [by exists INACTIVE|].
    exists (ChatSession.status r). by destruct r.
  - by rewrite cleanupTick_valid, dom_fmap_L.
  - apply cleanupTick_frame.
  - apply cleanupTick_frame.
  - destruct (cleanupTick_frame hb cm w) as (_ & Hclk & _).
    rewrite (cleanupTick_valid hb cm (run (cleanupTick hb cm) w)) by (by rewrite Hclk).
    rewrite Hclk, cleanupTick_valid by done.
    rewrite <- map_fmap_compose. apply map_fmap_ext. intros ? ? _. simpl.
    apply sweep_row_idem.
Qed.

Lemma cleanupTick_sweeps_witness :
  chatSession (run (cleanupTick 120 15) sample_world) !! "s-stale"
    = Some (mk_row "v3" CLOSED 50000 3000)
  ∧ chatSession (run (cleanupTick 120 15) sample_world) !! "s-idle"
    = Some (mk_row "v2" INACTIVE 700000 2000).
Proof.
  split.
  - refine (proj1 (proj2 (cleanupTick_sweeps 120 15 sample_world "s-stale"
                            (mk_row "v3" ACTIVE 50000 3000) _ _ _)) _ _);
      [vm_compute; reflexivity
      | vm_compute; split; intros H; discriminate H
      | vm_compute; split; intros H; discriminate H
      | left; reflexivity | vm_compute; reflexivity].
  - refine (proj1 (proj2 (proj2 (cleanupTick_sweeps 120 15 sample_world "s-idle"
                            (mk_row "v2" ACTIVE 700000 2000) _ _ _))) _ _ _);
      [vm_compute; reflexivity
      | vm_compute; split; intros H; discriminate H
      | vm_compute; split; intros H; discriminate H
      | reflexivity | vm_compute; reflexivity
      | vm_compute; intros H; discriminate H].
Defined.

(** Finite settings of either sign are scheduled as they are. *)
Lemma startCleanupJob_schedules_finite hb cm w :
  startCleanupJob {| heartbeatTimeoutSeconds := Num hb; sessionCloseMinutes := Num cm |} w
  = (w, Returned (schedule (cleanupTick hb cm))).
Proof. reflexivity. Qed.

(** C3 fails as stated: a negative inactivity timeout is not a valid
    non-negative number, yet the job is scheduled and its tick marks a
    session INACTIVE whose last activity is the current instant. *)
Lemma negative_timeout_is_scheduled :
  ¬ valid_non_negative (heartbeatTimeoutSeconds env_negative)
  ∧ ¬ refuses_to_run env_negative sample_world
  ∧ ∃ t, result (startCleanupJob env_negative) sample_world = Returned t
         ∧ running t = true
         ∧ logs (run (startCleanupJob env_negative) sample_world) = []
         ∧ status_of sample_world "s-now" = Some ACTIVE
         ∧ status_of (run (fire t) sample_world) "s-now" = Some INACTIVE.
Proof.
  split; [simpl; lia|]. split.
  - intros (t & e & Hres & [Hstop _] & _).
    unfold result, env_negative in Hres.
    rewrite startCleanupJob_schedules_finite in Hres.
    injection Hres as <-. discriminate Hstop.
  - exists (schedule (cleanupTick (-5) 15)).
    split; [reflexivity|]. repeat split; vm_compute; reflexivity.
Qed.

(** C3, amended. When the inactivity timeout or the close threshold is NaN,
    [startCleanupJob] refuses to run: the task it returns is stopped and
    changes neither table when the schedule comes due, and one error entry
    is logged. *)
Theorem startCleanupJob_refuses_NaN (env : EnvConfig) (w : World) :
  heartbeatTimeoutSeconds env = NaN ∨ sessionCloseMinutes env = NaN →
  refuses_to_run env w.
Proof.
  intros Hnan.
  assert (Number_isNaN (heartbeatTimeoutSeconds env)
          || Number_isNaN (sessionCloseMinutes env) = true) as Hif.
  { apply orb_true_iff. destruct Hnan as [-> | ->]; auto. }
  unfold refuses_to_run, startCleanupJob. rewrite Hif. async_unfold. simpl.
  eexists _, _. split; [reflexivity|]. split; [|split; reflexivity].
  split; [reflexivity|]. intros w0. split; reflexivity.
Qed.

Lemma startCleanupJob_refuses_NaN_witness : refuses_to_run env_nan sample_world.
Proof. apply startCleanupJob_refuses_NaN. left. reflexivity. Defined.


(** ** The responder client *)

Lemma sendToN8n_eq ext payload w :
  sendToN8n ext payload w =
    (let took := N.min (round_trip ext (body_of payload)) timeout in
     let w' := set_clock (λ t, t + Z.of_N took)
                 (set_posts (λ ps, ps ++ [body_of payload]) w) in
     if decide (timeout < round_trip ext (body_of payload))%N
     then (set_logs (λ ls, ls ++ [ {| level := LError;
              text := "Error connecting to n8n: " +:+ "timeout of 60000ms exceeded" |} ]) w',
           Returned (JStr apology))
     else match axios_post ext (body_of payload) with
          | Resolved data => (w', Returned (extract_output ext data))
          | Rejected msg =>
              (set_logs (λ ls, ls ++ [ {| level := LError;
                 text := "Error connecting to n8n: " +:+ msg |} ]) w',
               Returned (JStr apology))
          end).
Proof.
  unfold sendToN8n, post. fold (body_of payload). async_unfold. simpl.
  destruct (decide _); [done|].
  by destruct (axios_post ext (body_of payload)).
Qed.

(** The client never throws, and what it hands back depends on the
    webhook's answer alone. *)
Lemma sendToN8n_result ext payload w :
  result (sendToN8n ext payload) w = Returned (reply_of ext (body_of payload)).
Proof.
  unfold result, reply_of. rewrite sendToN8n_eq. simpl.
  destruct (decide _); [done|].
  by destruct (axios_post ext (body_of payload)).
Qed.

Lemma sendToN8n_frame ext payload w :
  let w' := run (sendToN8n ext payload) w in
  chatSession w' = chatSession w ∧ chatMessage w' = chatMessage w
  ∧ sockets w' = sockets w ∧ issued w' = issued w
  ∧ posts w' = posts w ++ [body_of payload]
  ∧ clock w' = clock w + Z.of_N (N.min (round_trip ext (body_of payload)) timeout).
Proof.
  unfold run. rewrite sendToN8n_eq. simpl.
  destruct (decide _); [done|].
  by destruct (axios_post ext (body_of payload)).
Qed.

(** On a timeout or a rejected call the fixed apology is handed back. *)
Lemma sendToN8n_apology ext payload w :
  (timeout < round_trip ext (body_of payload))%N
  ∨ (∃ msg, axios_post ext (body_of payload) = Rejected msg) →
  result (sendToN8n ext payload) w = Returned (JStr apology).
Proof.
  rewrite sendToN8n_result. unfold reply_of.
  intros [Hlate | [msg Hrej]]; destruct (decide _); try done.
  by rewrite Hrej.
Qed.

(** The fields are tried in the order output, text, message; a field that
    is absent or null is passed over, and when all three are, the response
    is rendered literally. *)
Lemma nullish_or_absent name data b :
  absent name data → nullish_or (get_field name data) b = b.
Proof. by intros [-> | ->]. Qed.

Lemma nullish_or_present name data v b :
  get_field name data = Some v → v ≠ JNull → nullish_or (get_field name data) b = v.
Proof. intros -> ?. by destruct v. Qed.

Lemma extract_output_output ext data v :
  get_field "output" data = Some v → v ≠ JNull → extract_output ext data = v.
Proof. intros. unfold extract_output. by apply nullish_or_present. Qed.

Lemma extract_output_text ext data v :
  absent "output" data →
  get_field "text" data = Some v → v ≠ JNull → extract_output ext data = v.
Proof.
  intros Ho ? ?. unfold extract_output.
  rewrite (nullish_or_absent "output") by done. by apply nullish_or_present.
Qed.

Lemma extract_output_message ext data v :
  absent "output" data → absent "text" data →
  get_field "message" data = Some v → v ≠ JNull → extract_output ext data = v.
Proof.
  intros Ho Ht ? ?. unfold extract_output.
  rewrite (nullish_or_absent "output"), (nullish_or_absent "text") by done.
  by apply nullish_or_present.
Qed.

Lemma extract_output_fallback ext data :
  absent "output" data → absent "text" data → absent "message" data →
  extract_output ext data = JStr (literal_rendering ext data).
Proof.
  intros Ho Ht Hm. unfold extract_output, literal_rendering.
  rewrite (nullish_or_absent "output"), (nullish_or_absent "text"),
    (nullish_or_absent "message") by done.
  by destruct data.
Qed.

(** C8 fails on the code: when the webhook answers with an object whose
    [output] field is the number 42, [sendToN8n] hands back that number,
    which is not a string; it does so without throwing. *)
Theorem sendToN8n_hands_back_non_string (payload : N8nPayload) (w : World) :
  result (sendToN8n (webhook (JObj [("output", JNum 42)])) payload) w
    = Returned (JNum 42)
  ∧ ¬ is_string (JNum 42).
Proof.
  split.
  - rewrite sendToN8n_result. reflexivity.
  - intros [s Hs]. discriminate Hs.
Qed.

(** ** The message handler: events that are turned away *)

Lemma truthy_trimmed payload :
  truthy (trim <$> msg_content payload) = bool_decide (trimmed_content payload ≠ "").
Proof. unfold trimmed_content. by destruct (msg_content payload). Qed.

Lemma truthy_Some_iff o :
  truthy o = true ↔ ∃ s, o = Some s ∧ s ≠ "".
Proof.
  destruct o as [s|]; simpl.
  - rewrite bool_decide_eq_true. split; [eauto | by intros (? & [= <-] & ?)].
  - split; [done | by intros (? & ? & ?)].
Qed.

Lemma on_message_unresolved ext c payload w :
  truthy (resolved_id w c (msg_sessionId payload)) = false →
  on_message ext c payload w =
    (set_sockets (alter (push (EvError "Session not established yet.")) c)
       (set_logs (λ ls, ls ++ [ {| level := LWarn; text := "No sessionId available" |} ]) w),
     Returned tt).
Proof.
  intros Hf. unfold resolved_id, bound_of in Hf.
  unfold on_message, socket_data_sessionId, socket_emit, on_socket.
  async_unfold. simpl in *. by rewrite Hf.
Qed.

Lemma on_message_empty ext c payload w :
  truthy (resolved_id w c (msg_sessionId payload)) = true →
  trimmed_content payload = "" →
  on_message ext c payload w =
    (set_logs (λ ls, ls ++ [ {| level := LWarn; text := "Empty content received" |} ]) w,
     Returned tt).
Proof.
  intros Ht He. unfold resolved_id, bound_of in Ht.
  unfold on_message, socket_data_sessionId.
  async_unfold. simpl in *. rewrite Ht. simpl.
  rewrite truthy_trimmed, He. done.
Qed.

Lemma on_message_closed ext c payload w sid :
  resolved_id w c (msg_sessionId payload) = Some sid → sid ≠ "" →
  trimmed_content payload ≠ "" →
  chatSession w !! sid = None ∨ status_of w sid = Some CLOSED →
  on_message ext c payload w =
    (set_sockets (alter (push (EvStatus CLOSED)) c) w, Returned tt).
Proof.
  intros Hr Hne Hc Hmiss. unfold resolved_id, bound_of in Hr.
  unfold on_message, socket_data_sessionId.
  async_unfold. simpl in Hr |- *. rewrite Hr, truthy_trimmed. simpl.
  rewrite !bool_decide_true by done. simpl.
  unfold chatSession_findUnique, gets, socket_emit, on_socket, modify. simpl.
  assert (missing_or_closed ((λ r, with_key (sid, r)) <$> chatSession w !! sid) = true) as ->.
  { unfold status_of in Hmiss. destruct Hmiss as [-> | Hcl]; [done|].
    destruct (chatSession w !! sid) as [r|]; [|done]. simpl in *.
    apply bool_decide_eq_true. congruence. }
  done.
Qed.

Lemma alter_push_hears c ev (w w' : World) :
  sockets w' = alter (push ev) c (sockets w) → only_sender_hears c [ev] w w'.
Proof.
  intros Hs c'. rewrite Hs. destruct (decide (c' = c)) as [-> | Hne].
  - rewrite lookup_alter_eq. by destruct (sockets w !! c).
  - rewrite lookup_alter_ne by done. by destruct (sockets w !! c').
Qed.

(** C6. A message event is turned away in three successive checks. When
    no session id is resolvable (neither the event nor the socket carries
    a non-empty one), exactly one error event goes to the sender, no other
    socket receives anything and nothing is persisted. When an id is
    resolvable and the content trims to the empty string, nothing is
    emitted and nothing is persisted. When an id is resolvable, the
    content is not empty after trimming and the session is missing from
    the store or CLOSED, the sender receives one status event carrying
    CLOSED, no other socket receives anything and nothing is persisted. *)
Theorem on_message_rejections (ext : Externals) (c : nat)
    (payload : IncomingMessagePayload) (w : World) :
  let resolved := resolved_id w c (msg_sessionId payload) in
  let w' := run (on_message ext c payload) w in
  (truthy resolved = false →
     only_sender_hears c [EvError "Session not established yet."] w w'
     ∧ nothing_persisted w w')
  ∧ (msg_sessionId payload = None → bound_of w c = None → truthy resolved = false)
  ∧ (truthy resolved = true → trimmed_content payload = "" →
     sockets w' = sockets w ∧ nothing_persisted w w')
  ∧ (∀ sid, resolved = Some sid → sid ≠ "" → trimmed_content payload ≠ "" →
     chatSession w !! sid = None ∨ status_of w sid = Some CLOSED →
     only_sender_hears c [EvStatus CLOSED] w w'
     ∧ nothing_persisted w w').
Proof.
  intros resolved w'. subst resolved w'. unfold run.
  split; [|split; [|split]].
  - intros Hf. rewrite on_message_unresolved by done.
    split; [by apply alter_push_hears | done].
  - intros Ho Hb. unfold resolved_id. by rewrite Ho, Hb.
  - intros Ht He. by rewrite on_message_empty.
  - intros sid Hr Hne Hc Hmiss. erewrite on_message_closed by done.
    split; [by apply alter_push_hears | done].
Qed.

Lemma on_message_rejections_witness :
  (outbox_of (run (on_message (webhook JNull) 7 (unaddressed_message "hi")) sample_world) 7
     = [EvError "Session not established yet."]
   ∧ outbox_of (run (on_message (webhook JNull) 7 (unaddressed_message "hi")) sample_world) 8
     = []
   ∧ chatMessage (run (on_message (webhook JNull) 7 (unaddressed_message "hi"))
                    sample_world) = [])
  ∧ (outbox_of (run (on_message (webhook JNull) 9 (plain_message " hi ")) sample_world) 9
     = [EvStatus CLOSED]
   ∧ outbox_of (run (on_message (webhook JNull) 9 (plain_message " hi ")) sample_world) 7
     = []
   ∧ chatMessage (run (on_message (webhook JNull) 9 (plain_message " hi ")) sample_world)
     = []
   ∧ posts (run (on_message (webhook JNull) 9 (plain_message " hi ")) sample_world) = [])
  ∧ (trimmed_content (plain_message blank_text) = ""
     ∧ sockets (run (on_message (webhook JNull) 7 (plain_message blank_text)) sample_world)
       = sockets sample_world
     ∧ chatMessage (run (on_message (webhook JNull) 7 (plain_message blank_text))
                      sample_world) = []).
Proof.
  split; [|split].
  - destruct (proj1 (on_message_rejections (webhook JNull) 7 (unaddressed_message "hi")
                       sample_world)) as [Hhears (_ & Hmsgs & _)].
    + reflexivity.
    + unfold outbox_of. rewrite !Hhears, Hmsgs. vm_compute. done.
  - destruct (proj2 (proj2 (proj2
               (on_message_rejections (webhook JNull) 9 (plain_message " hi ") sample_world)))
               "s-closed") as [Hhears (_ & Hmsgs & Hposts)].
    + vm_compute; reflexivity.
    + intros H; discriminate H.
    + vm_compute; intros H; discriminate H.
    + right; vm_compute; reflexivity.
    + unfold outbox_of. rewrite !Hhears, Hmsgs, Hposts. vm_compute. done.
  - destruct (proj1 (proj2 (proj2
               (on_message_rejections (webhook JNull) 7 (plain_message blank_text)
                  sample_world)))) as [Hsockets (_ & Hmsgs & _)].
    + vm_compute; reflexivity.
    + vm_compute; reflexivity.
    + split; [vm_compute; reflexivity|]. split; [exact Hsockets | exact Hmsgs].
Defined.

(** ** The end-session handler *)

Lemma on_endSession_unresolved c override w :
  truthy (resolved_id w c override) = false →
  on_endSession c override w =
    (set_logs (λ ls, ls ++ [ {| level := LWarn;
        text := "endSession called but no sessionId available" |} ]) w,
     Returned tt).
Proof.
  intros Hf. unfold resolved_id, bound_of in Hf.
  unfold on_endSession, socket_data_sessionId.
  async_unfold. simpl in *. by rewrite Hf.
Qed.

Lemma on_endSession_stored c override w sid r :
  resolved_id w c override = Some sid → sid ≠ "" →
  chatSession w !! sid = Some r →
  on_endSession c override w =
    (set_sockets
       (λ sk, alter (with_sessionId None) c
                (alter (with_rooms (λ rs, rs ∖ {[sid]})) c
                   (alter (push (session_closed_event sid)) c sk)))
       (set_chatMessage
          (λ ms, ms ++ [new_message w sid SYSTEM "Chat session ended by user."])
          (set_issued S
             (set_chatSession <[sid := touch (clock w) CLOSED r]> w))),
     Returned tt).
Proof.
  intros Hr Hne Hrow. unfold resolved_id, bound_of in Hr.
  unfold on_endSession, socket_data_sessionId.
  async_unfold. simpl in Hr |- *. rewrite Hr. simpl. rewrite bool_decide_true by done. simpl.
  unfold chatSession_update. rewrite Hrow. simpl.
  reflexivity.
Qed.

Lemma on_endSession_missing c override w sid :
  resolved_id w c override = Some sid → sid ≠ "" →
  chatSession w !! sid = None →
  on_endSession c override w =
    (set_sockets (alter (push (EvError "Failed to end session. Please try again.")) c)
       (set_logs (λ ls, ls ++ [ {| level := LError; text := "Error ending session" |} ]) w),
     Returned tt).
Proof.
  intros Hr Hne Hrow. unfold resolved_id, bound_of in Hr.
  unfold on_endSession, socket_data_sessionId.
  async_unfold. simpl in Hr |- *. rewrite Hr. simpl. rewrite bool_decide_true by done. simpl.
  unfold chatSession_update. rewrite Hrow. simpl.
  reflexivity.
Qed.

(** C9 fails as stated: an end-session event whose id is resolvable but
    names no stored session closes nothing, appends no SYSTEM message,
    emits an error instead of [sessionClosed] and leaves the socket bound;
    the next message event without an override is then accepted on the
    bound session instead of being rejected. *)
Lemma endSession_unknown_id_keeps_binding :
  let w' := run (on_endSession 7 (Some "ghost")) sample_world in
  let w'' := run (on_message (webhook (JStr "pong")) 7 (plain_message "ping")) w' in
  resolved_id sample_world 7 (Some "ghost") = Some "ghost"
  ∧ status_of w' "ghost" = None
  ∧ chatMessage w' = []
  ∧ outbox_of w' 7 = [EvError "Failed to end session. Please try again."]
  ∧ bound_of w' 7 = Some "s-active"
  ∧ (ChatMessage.content <$> chatMessage w'') = ["ping"; "pong"]
  ∧ outbox_of w'' 7 =
      [EvError "Failed to end session. Please try again.";
       EvMessage {| dto_id := "id-0"; sender := USER;
                    dto_content := "ping"; createdAt := 1000000 |};
       EvMessage {| dto_id := "id-1"; sender := BOT;
                    dto_content := "pong"; createdAt := 1000250 |}].
Proof. repeat split; vm_compute; reflexivity. Qed.

(** C9, amended. For an end-session event whose resolvable id names a
    stored session, the handler sets that session CLOSED with refreshed
    last activity, appends one SYSTEM message, emits [sessionClosed] to the
    sender and unbinds the socket, leaving the other sockets alone; a
    following message event on that socket without an override is rejected
    as unresolvable and persists nothing. With no resolvable id the handler
    changes no socket and neither table. *)
Theorem on_endSession_closes (ext : Externals) (c : nat) (override : option string)
    (w : World) :
  let w' := run (on_endSession c override) w in
  (∀ sid r s payload,
     resolved_id w c override = Some sid → sid ≠ "" →
     chatSession w !! sid = Some r →
     sockets w !! c = Some s →
     msg_sessionId payload = None →
     chatSession w' = <[sid := touch (clock w) CLOSED r]> (chatSession w)
     ∧ chatMessage w'
       = chatMessage w ++ [new_message w sid SYSTEM "Chat session ended by user."]
     ∧ outbox_of w' c = outbox s ++ [session_closed_event sid]
     ∧ bound_of w' c = None
     ∧ (∀ c', c' ≠ c → sockets w' !! c' = sockets w !! c')
     ∧ outbox_of (run (on_message ext c payload) w') c
       = outbox_of w' c ++ [unresolvable_error]
     ∧ nothing_persisted w' (run (on_message ext c payload) w'))
  ∧ (truthy (resolved_id w c override) = false →
     sockets w' = sockets w ∧ chatSession w' = chatSession w
     ∧ chatMessage w' = chatMessage w).
Proof.
  intros w'. subst w'. split.
  - intros sid r s payload Hr Hne Hrow Hs Hno.
    unfold run. rewrite (on_endSession_stored c override w sid r) by done.
    cbn [fst].
    match goal with |- context [on_message ext c payload ?w1] => set (w' := w1) end.
    assert (sockets w' !! c
            = Some (with_sessionId None
                      (with_rooms (λ rs, rs ∖ {[sid]})
                         (push (session_closed_event sid) s)))) as Hs'.
    { subst w'. simpl. by rewrite !lookup_alter_eq, Hs. }
    assert (truthy (resolved_id w' c (msg_sessionId payload)) = false) as Hun.
    { unfold resolved_id, bound_of. by rewrite Hno, Hs'. }
    rewrite (on_message_unresolved ext c payload w' Hun). cbn [fst].
    assert (outbox_of w' c = outbox s ++ [session_closed_event sid]) as Hout.
    { unfold outbox_of. by rewrite Hs'. }
    repeat split; try done.
    + unfold bound_of. by rewrite Hs'.
    + intros c' Hc'. subst w'. simpl. by rewrite !lookup_alter_ne.
    + rewrite Hout. unfold outbox_of.
      change (sockets (set_sockets ?f ?w0)) with (f (sockets w0)).
      change (sockets (set_logs ?f ?w0)) with (sockets w0).
      by rewrite lookup_alter_eq, Hs'.
  - intros Hf. unfold run. by rewrite on_endSession_unresolved.
Qed.

Lemma on_endSession_closes_witness :
  status_of (run (on_endSession 7 None) sample_world) "s-active" = Some CLOSED
  ∧ bound_of (run (on_endSession 7 None) sample_world) 7 = None
  ∧ outbox_of (run (on_message (webhook JNull) 7 (plain_message "hello"))
                 (run (on_endSession 7 None) sample_world)) 7
    = [session_closed_event "s-active"; unresolvable_error].
Proof.
  pose proof (proj1 (on_endSession_closes (webhook JNull) 7 None sample_world)
                "s-active" (mk_row "v1" ACTIVE 880000 1000)
                (bound_socket "v1" "s-active") (plain_message "hello")) as H.
  destruct H as (Hst & _ & Ho & Hb & _ & Hm & _).
  - vm_compute; reflexivity.
  - intros H; discriminate H.
  - vm_compute; reflexivity.
  - vm_compute; reflexivity.
  - reflexivity.
  - split; [|split].
    + unfold status_of. rewrite Hst, lookup_insert_eq. reflexivity.
    + exact Hb.
    + rewrite Hm, Ho. reflexivity.
Defined.

(** ** The message handler: an accepted event *)

Lemma on_message_accepted ext c payload w sid r :
  resolved_id w c (msg_sessionId payload) = Some sid → sid ≠ "" →
  trimmed_content payload ≠ "" →
  chatSession w !! sid = Some r → ChatSession.status r ≠ CLOSED →
  on_message ext c payload w =
    (let content := trimmed_content payload in
     let req := brain_request w sid content (msg_metadata payload) in
     let w4 := run (sendToN8n ext req) (after_user_message w sid content r) in
     match reply_of ext (body_of req) with
     | JStr reply =>
         (set_sockets
            (fmap (deliver sid (EvMessage (mapMessage (new_message w4 sid BOT reply)))))
            (set_chatMessage (λ ms, ms ++ [new_message w4 sid BOT reply])
               (set_issued S w4)),
          Returned tt)
     | _ =>
         (set_sockets
            (alter (push (EvError "Unable to send message right now. Please try again.")) c)
            (set_logs (λ ls, ls ++ [ {| level := LError;
                                        text := "Error handling message event" |} ]) w4),
          Returned tt)
     end).
Proof.
  intros Hr Hne Hc Hrow Hopen. unfold resolved_id, bound_of in Hr.
  unfold on_message, socket_data_sessionId.
  async_unfold. simpl in Hr |- *. rewrite Hr, truthy_trimmed. simpl.
  rewrite !bool_decide_true by done. simpl.
  unfold chatSession_findUnique, gets. simpl. rewrite Hrow. simpl.
  rewrite bool_decide_false by done.
  unfold chatMessage_create, uuid, Date_now, gets, modify, io_to_emit, modify. simpl.
  unfold chatSession_update. simpl. rewrite Hrow.
  unfold getHistory, chatMessage_findMany_asc, gets. simpl.
  fold (trimmed_content payload).
  fold (new_message w sid USER (trimmed_content payload)).
  fold (brain_request w sid (trimmed_content payload) (msg_metadata payload)).
  fold (after_user_message w sid (trimmed_content payload) r).
  pose proof (sendToN8n_result ext
                (brain_request w sid (trimmed_content payload) (msg_metadata payload))
                (after_user_message w sid (trimmed_content payload) r)) as Hres.
  unfold result in Hres. unfold run.
  destruct (sendToN8n ext _ _) as [w4 o]. simpl in Hres. subst o. simpl.
  destruct (reply_of ext _); reflexivity.
Qed.

(** ** Ascending listings *)




Lemma insert_asc_perm a l : insert_asc a l ≡ₚ a :: l.
Proof.
  induction l as [|y l IH]; simpl; [done|].
  destruct (decide _); [done|]. rewrite IH. apply Permutation_swap.
Qed.

Lemma order_asc_perm l : order_asc l ≡ₚ l.
Proof.
  induction l as [|a l IH]; [done|].
  change (order_asc (a :: l)) with (insert_asc a (order_asc l)).
  rewrite insert_asc_perm. by f_equiv.
Qed.

Lemma insert_asc_sorted a l :
  StronglySorted created_le l → StronglySorted created_le (insert_asc a l).
Proof.
  induction 1 as [|y l Hs IH Hall]; simpl.
  - repeat constructor.
  - destruct (decide _) as [Hle | Hgt].
    + constructor; [by constructor|]. constructor; [done|].
      eapply Forall_impl; [exact Hall|]. unfold created_le in *. simpl. lia.
    + constructor; [done|].
      rewrite insert_asc_perm. constructor; [|done].
      unfold created_le. lia.
Qed.

Lemma order_asc_sorted l : StronglySorted created_le (order_asc l).
Proof.
  induction l as [|a l IH]; [constructor|].
  change (order_asc (a :: l)) with (insert_asc a (order_asc l)).
  by apply insert_asc_sorted.
Qed.

Lemma on_message_accepted_effect ext c payload w sid r :
  resolved_id w c (msg_sessionId payload) = Some sid → sid ≠ "" →
  trimmed_content payload ≠ "" →
  chatSession w !! sid = Some r → ChatSession.status r ≠ CLOSED →
  chatMessage (run (on_message ext c payload) w)
    = chatMessage w ++ turn_user w sid payload :: turn_replies ext w sid payload
  ∧ chatSession (run (on_message ext c payload) w)
    = <[sid := touch (clock w) ACTIVE r]> (chatSession w)
  ∧ posts (run (on_message ext c payload) w) = posts w ++ [turn_body w sid payload]
  ∧ clock (run (on_message ext c payload) w)
    = clock w + call_duration ext (turn_body w sid payload)
  ∧ sockets (run (on_message ext c payload) w) = turn_sockets ext c w sid payload.
Proof.
  intros Hr Hne Hc Hrow Hopen.
  unfold turn_replies, turn_sockets, turn_bot, turn_user, turn_body.
  set (content := trimmed_content payload).
  set (req := brain_request w sid content (msg_metadata payload)).
  set (body := body_of req).
  set (user := new_message w sid USER content).
  unfold run. rewrite (on_message_accepted ext c payload w sid r) by done.
  cbv zeta. fold content. fold req. fold body.
  set (w3 := after_user_message w sid content r).
  destruct (sendToN8n_frame ext req w3) as (Hcs & Hcm & Hsk & Hiss & Hposts & Hclk).
  fold body in Hposts, Hclk.
  set (w4 := run (sendToN8n ext req) w3) in *.
  assert (∀ reply, new_message w4 sid BOT reply
                   = bot_message w sid reply (call_duration ext body)) as Hbot.
  { intros reply. unfold new_message, bot_message, call_duration.
    rewrite Hiss, Hclk. reflexivity. }
  assert (chatMessage w4 = chatMessage w ++ [user]) as Hcm' by (by rewrite Hcm).
  assert (chatSession w4 = <[sid := touch (clock w) ACTIVE r]> (chatSession w)) as Hcs'
    by (by rewrite Hcs).
  assert (posts w4 = posts w ++ [body]) as Hposts' by (by rewrite Hposts).
  assert (sockets w4
          = deliver sid (EvMessage (mapMessage user)) <$> sockets w) as Hsk'
    by (by rewrite Hsk).
  assert (clock w4 = clock w + call_duration ext body) as Hclk'
    by (by rewrite Hclk).
  clearbody w4. clear Hcs Hcm Hsk Hiss Hposts Hclk. subst w3.
  destruct (reply_of ext body) as [| | | reply | |] eqn:Hreply; cbn [fst].
  all: cbn [chatMessage chatSession posts sockets clock set_sockets set_logs
            set_chatMessage set_issued].
  all: rewrite ?Hbot, ?Hcm', ?Hcs', ?Hposts', ?Hsk', ?Hclk'.
  all: repeat split; by rewrite <- ?app_assoc.
Qed.

Lemma lookup_deliver room ev (sk : gmap nat Socket) c :
  (deliver room ev <$> sk) !! c = deliver room ev <$> sk !! c.
Proof. apply lookup_fmap. Qed.







(** C7 fails on the code: the webhook answers in time with an object whose
    output field is the number 42, so the responder has not failed and
    [sendToN8n] hands that number back. The handler has stored and
    broadcast the USER message by then; it stores no BOT message, the
    sender receives an error event after the USER message and the other
    socket of the session receives the USER message alone. *)
Theorem non_string_reply_stores_no_bot_message :
  axios_post numeric_webhook (turn_body quiet_world "s-away" (plain_message "hello"))
    = Resolved (JObj [("output", JNum 42)])
  ∧ (round_trip numeric_webhook (turn_body quiet_world "s-away" (plain_message "hello"))
     ≤ timeout)%N
  ∧ result (sendToN8n numeric_webhook
              (brain_request quiet_world "s-away" "hello" None)) quiet_world
    = Returned (JNum 42)
  ∧ chatMessage (run (on_message numeric_webhook 1 (plain_message "hello")) quiet_world)
    = [ {| ChatMessage.id := "id-0"; ChatMessage.session_id := "s-away";
           ChatMessage.role := USER; ChatMessage.content := "hello";
           ChatMessage.created_at := 1000000 |} ]
  ∧ length (posts (run (on_message numeric_webhook 1 (plain_message "hello")) quiet_world))
    = 1%nat
  ∧ outbox_of (run (on_message numeric_webhook 1 (plain_message "hello")) quiet_world) 1
    = [ EvMessage {| dto_id := "id-0"; sender := USER; dto_content := "hello";
                     createdAt := 1000000 |};
        EvError "Unable to send message right now. Please try again." ]
  ∧ outbox_of (run (on_message numeric_webhook 1 (plain_message "hello")) quiet_world) 2
    = [ EvMessage {| dto_id := "id-0"; sender := USER; dto_content := "hello";
                     createdAt := 1000000 |} ].
Proof.
  split; [reflexivity|]. split; [vm_compute; intros H; discriminate H|].
  split; [vm_compute; reflexivity|]. split; [vm_compute; reflexivity|].
  split; [vm_compute; reflexivity|]. split; vm_compute; reflexivity.
Qed.

(** ** Session resolution *)

Lemma most_recent_None l : most_recent l = None ↔ l = [].
Proof. by destruct l. Qed.

Lemma most_recent_Some l s :
  most_recent l = Some s → s ∈ l ∧ ∀ s', s' ∈ l → created s' ≤ created s.
Proof.
  revert s. induction l as [|a l IH]; intros s; [done|]. simpl.
  destruct (most_recent l) as [b|] eqn:Hb.
  - destruct (IH b eq_refl) as [Hin Hmax]. intros [= <-].
    unfold newer. fold (created a) (created b).
    destruct (decide (created a < created b)) as [Hlt | Hge].
    + split; [by right|]. intros s' [-> | Hs']%elem_of_cons; [lia | by apply Hmax].
    + split; [left|]. intros s' [-> | Hs']%elem_of_cons; [lia|].
      specialize (Hmax s' Hs'). lia.
  - apply most_recent_None in Hb as ->. intros [= <-].
    split; [left|]. intros s' [-> | Hs']%elem_of_cons; [lia|].
    by apply elem_of_nil in Hs'.
Qed.

Lemma elem_of_open_sessions_of w v s :
  s ∈ open_sessions_of w v ↔ open_session_of w v s.
Proof.
  unfold open_sessions_of, open_session_of, is_open_session_of.
  rewrite list_elem_of_filter, list_elem_of_fmap, andb_true_iff, !bool_decide_eq_true.
  split.
  - intros [[Hv Hst] ([k r] & -> & Hkr)]. simpl in *.
    by apply elem_of_map_to_list in Hkr.
  - intros (Hrow & Hv & Hst). split; [done|].
    exists (ChatSession.id s, ChatSession.columns s). split; [by destruct s|].
    by apply elem_of_map_to_list.
Qed.

Lemma claimed_session_Some w requested s :
  claimed_session w requested = Some s ↔ claim_reusable w requested s.
Proof.
  unfold claimed_session, claim_reusable. split.
  - destruct (truthy requested) eqn:Ht; [|done].
    apply truthy_Some_iff in Ht as (rid & -> & Hne). simpl.
    destruct (chatSession w !! rid) as [r|] eqn:Hrow; [|done].
    destruct (decide _); [|done]. by intros [= <-].
  - intros (-> & Hne & Hrow & Hst). simpl.
    rewrite bool_decide_true, Hrow, decide_True by done. by destruct s.
Qed.

Lemma ensureSession_eq visitorId requested w :
  ensureSession visitorId requested w =
    match claimed_session w requested with
    | Some s => (w, Returned s)
    | None =>
        match most_recent (open_sessions_of w visitorId) with
        | Some s => (w, Returned s)
        | None => (after_create w visitorId, Returned (created_session w visitorId))
        end
    end.
Proof.
  unfold ensureSession, claimed_session, chatSession_findUnique,
    chatSession_findFirst_desc, chatSession_create, uuid. async_unfold.
  destruct (truthy requested); simpl.
  - destruct (chatSession w !! default "" requested) as [r|]; simpl.
    + destruct (decide _); [done|].
      fold (open_sessions_of w visitorId).
      by destruct (most_recent (open_sessions_of w visitorId)).
    + fold (open_sessions_of w visitorId).
      by destruct (most_recent (open_sessions_of w visitorId)).
  - fold (open_sessions_of w visitorId).
    by destruct (most_recent (open_sessions_of w visitorId)).
Qed.

(** C5. Session resolution follows a fixed precedence: a claimed
    id that is supplied, stored and not CLOSED is reused as it is;
    otherwise the visitor's most recently created session that is not
    CLOSED is reused when there is one; otherwise a session with status
    ACTIVE is created under the next identifier of the store. When the
    claimed id names a CLOSED session and the store hands out an unused
    identifier, the session resolved has another id. *)
Theorem ensureSession_precedence (visitorId : string) (requested : option string)
    (w : World) :
  let out := ensureSession visitorId requested w in
  (∀ s, claim_reusable w requested s → out = (w, Returned s))
  ∧ ((∀ s, ¬ claim_reusable w requested s) →
     ∀ s0, open_session_of w visitorId s0 →
       ∃ e, out = (w, Returned e)
            ∧ open_session_of w visitorId e
            ∧ ∀ s', open_session_of w visitorId s' → created s' ≤ created e)
  ∧ ((∀ s, ¬ claim_reusable w requested s) →
     (∀ s, ¬ open_session_of w visitorId s) →
     out = (after_create w visitorId, Returned (created_session w visitorId))
     ∧ ChatSession.status (ChatSession.columns (created_session w visitorId)) = ACTIVE
     ∧ chatSession (after_create w visitorId) !! next_id w
       = Some (ChatSession.columns (created_session w visitorId)))
  ∧ (∀ rid r s, requested = Some rid →
       chatSession w !! rid = Some r → ChatSession.status r = CLOSED →
       chatSession w !! next_id w = None →
       snd out = Returned s → ChatSession.id s ≠ rid).
Proof.
  intros out. subst out. rewrite ensureSession_eq.
  assert ((∀ s, ¬ claim_reusable w requested s) → claimed_session w requested = None)
    as Hnone.
  { intros Hno. destruct (claimed_session w requested) as [s|] eqn:Hs; [|done].
    apply claimed_session_Some in Hs. by destruct (Hno s). }
  split; [|split; [|split]].
  - intros s Hs. apply claimed_session_Some in Hs. by rewrite Hs.
  - intros Hno s0 Hs0. rewrite (Hnone Hno).
    destruct (most_recent (open_sessions_of w visitorId)) as [e|] eqn:He.
    + apply most_recent_Some in He as [Hin Hmax]. exists e. split; [done|].
      split; [by apply elem_of_open_sessions_of|].
      intros s' Hs'. by apply Hmax, elem_of_open_sessions_of.
    + apply most_recent_None in He.
      apply elem_of_open_sessions_of in Hs0. rewrite He in Hs0.
      by apply elem_of_nil in Hs0.
  - intros Hno Hnobody. rewrite (Hnone Hno).
    destruct (most_recent (open_sessions_of w visitorId)) as [e|] eqn:He.
    + apply most_recent_Some in He as [Hin _].
      apply elem_of_open_sessions_of in Hin. by destruct (Hnobody e).
    + split; [done|]. split; [done|]. simpl. apply lookup_insert_eq.
  - intros rid r s -> Hrow Hclosed Hfresh.
    assert (claimed_session w (Some rid) = None) as ->.
    { apply Hnone. intros s' (Heq & _ & Hrow' & Hst'). injection Heq as ->.
      rewrite Hrow in Hrow'. injection Hrow' as Heq. by rewrite <- Heq in Hst'. }
    destruct (most_recent (open_sessions_of w visitorId)) as [e|] eqn:He; simpl.
    + intros [= <-]. apply most_recent_Some in He as [Hin _].
      apply elem_of_open_sessions_of in Hin as (Hrow' & _ & Hst').
      intros Heq. rewrite Heq, Hrow in Hrow'. injection Hrow' as Hr.
      by rewrite <- Hr in Hst'.
    + intros [= <-]. simpl. intros Heq. rewrite Heq in Hfresh. congruence.
Qed.

Lemma ensureSession_precedence_witness :
  ensureSession "v1" (Some "s-active") sample_world
    = (sample_world, Returned (with_key ("s-active", mk_row "v1" ACTIVE 880000 1000)))
  ∧ ChatSession.id (with_key ("s-active", mk_row "v1" ACTIVE 880000 1000)) ≠ "s-closed".
Proof.
  split.
  - apply (proj1 (ensureSession_precedence "v1" (Some "s-active") sample_world)).
    repeat split; try (vm_compute; reflexivity); intros H; discriminate H.
  - apply (proj2 (proj2 (proj2
             (ensureSession_precedence "v1" (Some "s-closed") sample_world)))
             "s-closed" (mk_row "v1" CLOSED 1000 500));
      vm_compute; reflexivity.
Defined.

Lemma ensureSession_returns visitorId requested w :
  ∃ w1 s, ensureSession visitorId requested w = (w1, Returned s)
          ∧ chatMessage w1 = chatMessage w ∧ sockets w1 = sockets w
          ∧ clock w1 = clock w
          ∧ chatSession w1 !! ChatSession.id s = Some (ChatSession.columns s).
Proof.
  rewrite ensureSession_eq.
  destruct (claimed_session w requested) as [s|] eqn:Hs.
  { apply claimed_session_Some in Hs as (_ & _ & Hrow & _). by exists w, s. }
  destruct (most_recent (open_sessions_of w visitorId)) as [e|] eqn:He.
  { apply most_recent_Some in He as [Hin _].
    apply elem_of_open_sessions_of in Hin as (Hrow & _). by exists w, e. }
  eexists _, _. split; [reflexivity|]. repeat split. simpl. apply lookup_insert_eq.
Qed.

(** ** Connecting *)

Lemma on_connection_effect c handshake w :
  ∃ sid visitorId st,
    sockets (run (on_connection c handshake) w)
      = <[c := handshaken_socket sid visitorId
                 (EvSession sid visitorId st :: history_events (replayed sid w))]>
          (sockets w)
    ∧ chatMessage (run (on_connection c handshake) w) = chatMessage w
    ∧ clock (run (on_connection c handshake) w) = clock w.
Proof.
  unfold on_connection, handleConnection.
  set (claimed := or_else (auth_visitorId handshake) (query_visitorId handshake)).
  set (requested := or_else (auth_sessionId handshake) (query_sessionId handshake)).
  set (w0 := set_sockets <[c:=new_socket]> w).
  assert (∃ w1 visitorId,
            (if truthy claimed then mret (default "" claimed) else uuid) w0
              = (w1, Returned visitorId)
            ∧ chatMessage w1 = chatMessage w ∧ sockets w1 = sockets w0
            ∧ clock w1 = clock w)
    as (w1 & visitorId & Hv & Hm1 & Hs1 & Hc1).
  { destruct (truthy claimed); eexists _, _; (split; [reflexivity|done]). }
  destruct (ensureSession_returns visitorId requested w1)
    as (w2 & s & He & Hm2 & Hs2 & Hc2 & Hrow).
  exists (ChatSession.id s), visitorId, (ChatSession.status (ChatSession.columns s)).
  unfold run, replayed, history_asc.
  async_unfold. cbn [fst snd]. fold w0. rewrite Hv, He. cbn [fst snd].
  unfold socket_emit, socket_join, registerSocketEvents, on_socket, modify.
  unfold getHistory, chatMessage_findMany_asc, gets. async_unfold.
  cbn [fst snd chatMessage set_sockets]. rewrite Hm2, Hm1.
  set (rows := take default_limit (order_asc (of_session (ChatSession.id s) (chatMessage w)))).
  destruct rows as [|m rows']; cbn [fmap list_fmap history_events fst snd].
  all: unfold chatSession_update; cbn [chatSession set_sockets]; rewrite Hrow.
  all: cbn [fst snd sockets chatMessage clock set_sockets set_chatSession].
  all: rewrite Hs2, Hs1, Hm2, Hm1, Hc2, Hc1; subst w0; cbn [sockets set_sockets].
  all: split; [|done].
  all: rewrite !alter_insert_eq; reflexivity.
Qed.



Example replay_of_101_messages :
  outbox_of (run (on_connection 6 returning_visitor) (long_world 101)) 6
    = [EvSession "s-long" "v9" ACTIVE;
       EvHistory (mapMessage <$> (numbered_message "s-long" <$> seq 1 100))]
  ∧ left_out "s-long" (long_world 101) = [numbered_message "s-long" 101].
Proof. split; vm_compute; reflexivity. Qed.

(** ** The history handed to the responder *)

(** C4 fails on the code: with 51 stored messages the window posted to the
    webhook holds the messages created at the instants 1 to 50, the
    earliest ones; the trailing window of the session (the 50 most recent
    messages, the new one among them) is a different list, and the new
    content is not in the window that is sent. *)
Theorem brain_history_is_leading_window :
  let w := long_world 51 in
  let w' := run (on_message (webhook (JStr "ok")) 5 (plain_message "latest")) w in
  let stored :=
    history_asc "s-long"
      (set_chatMessage (λ ms, ms ++ [new_message w "s-long" USER "latest"]) w) in
  let sent := posts w' ≫= body_history in
  length (history_asc "s-long" w) = 51%nat
  ∧ chatInput <$> posts w' = ["latest"]
  ∧ h_createdAt <$> sent = Z.of_nat <$> seq 1 50
  ∧ ChatMessage.created_at <$> trailing_window 50 stored
    = (Z.of_nat <$> seq 3 49) ++ [5000]
  ∧ sent ≠ toHistoryEntry <$> (mapMessage <$> trailing_window 50 stored)
  ∧ sent ≠ toHistoryEntry <$> (mapMessage <$> trailing_window 50 (history_asc "s-long" w))
  ∧ "latest" ∉ h_content <$> sent.
Proof.
  cbv zeta. split; [vm_compute; reflexivity|].
  split; [vm_compute; reflexivity|].
  split; [vm_compute; reflexivity|].
  split; [vm_compute; reflexivity|].
  split; [|split].
  - intros H. apply (f_equal (fmap h_createdAt)) in H. vm_compute in H. discriminate H.
  - intros H. apply (f_equal (fmap h_createdAt)) in H. vm_compute in H. discriminate H.
  - apply (bool_decide_unpack _). vm_compute. exact I.
Qed.

(** In every world the window sent is the leading one: the first 50 rows
    of the ascending listing taken after the USER message is stored. *)
Lemma brain_request_history w sid content metadata :
  n8n_history (brain_request w sid content metadata)
  = toHistoryEntry <$>
      (mapMessage <$>
         take 50 (history_asc sid
                    (set_chatMessage (λ ms, ms ++ [new_message w sid USER content]) w))).
Proof. reflexivity. Qed.

(** ** CLOSED as a terminal state *)

Lemma when_listening_run c (h : Async unit) w :
  run (when_listening c h) w
  = if decide (listening <$> sockets w !! c = Some true) then run h w else w.
Proof.
  unfold when_listening. async_unfold. simpl. by destruct (decide _).
Qed.

(** The sweep never writes a CLOSED row. *)
Lemma closed_terminal_tick ext hb cm w : closed_is_terminal ext (OpTick hb cm) w.
Proof.
  intros id r Hrow Hclosed. unfold perform, fire, schedule. cbn [running callback].
  rewrite cleanupTick_chatSession.
  destruct (new_Date (inactiveThreshold _ _)); [|done].
  destruct (new_Date (closeThreshold _ _));
    rewrite lookup_fmap, Hrow; cbn [fmap option_fmap option_map].
  - by rewrite sweep_row_closed.
  - unfold apply_where. destruct (is_active_before _ r) eqn:Ha; [|done].
    apply is_active_before_spec in Ha as [Ha _]. congruence.
Qed.

(** The message handler never writes a CLOSED row. *)
Lemma closed_terminal_message ext c payload w :
  closed_is_terminal ext (OpMessage c payload) w.
Proof.
  intros id r Hrow Hclosed. unfold perform. rewrite when_listening_run.
  destruct (decide _); [|done].
  destruct (truthy (resolved_id w c (msg_sessionId payload))) eqn:Ht.
  2: { unfold run. by rewrite on_message_unresolved. }
  destruct (decide (trimmed_content payload = "")) as [He | Hc].
  { unfold run. by rewrite on_message_empty. }
  apply truthy_Some_iff in Ht as (sid & Hr & Hne).
  destruct (chatSession w !! sid) as [r'|] eqn:Hrow'.
  - destruct (decide (ChatSession.status r' = CLOSED)) as [Hcl | Hopen].
    + unfold run. erewrite on_message_closed; [done..|].
      right. unfold status_of. by rewrite Hrow', <- Hcl.
    + destruct (on_message_accepted_effect ext c payload w sid r')
        as (_ & -> & _); [done..|].
      rewrite lookup_insert_ne; [done|]. intros <-. congruence.
  - unfold run. erewrite on_message_closed; [done..|]. by left.
Qed.

(** C1 fails on the code: a heartbeat on a socket bound to a CLOSED session
    sets that session ACTIVE again and refreshes its last activity; the
    REST heartbeat and a repeated end-session leave it CLOSED and refresh
    its last activity. The sweep and the message handler do leave CLOSED
    rows alone ([closed_terminal_tick], [closed_terminal_message]). *)
Theorem heartbeat_reopens_closed_session (ext : Externals) :
  chatSession sample_world !! "s-closed" = Some (mk_row "v1" CLOSED 1000 500)
  ∧ chatSession (run (perform ext (OpHeartbeat 9 None)) sample_world) !! "s-closed"
    = Some (mk_row "v1" ACTIVE 1000000 500)
  ∧ ¬ closed_is_terminal ext (OpHeartbeat 9 None) sample_world
  ∧ chatSession (run (perform ext (OpRestHeartbeat "s-closed")) sample_world) !! "s-closed"
    = Some (mk_row "v1" CLOSED 1000000 500)
  ∧ ¬ closed_is_terminal ext (OpRestHeartbeat "s-closed") sample_world
  ∧ chatSession (run (perform ext (OpEndSession 9 None)) sample_world) !! "s-closed"
    = Some (mk_row "v1" CLOSED 1000000 500).
Proof.
  assert (chatSession (run (perform ext (OpHeartbeat 9 None)) sample_world) !! "s-closed"
          = Some (mk_row "v1" ACTIVE 1000000 500)) as Hhb.
  { vm_compute; reflexivity. }
  assert (chatSession (run (perform ext (OpRestHeartbeat "s-closed")) sample_world)
            !! "s-closed" = Some (mk_row "v1" CLOSED 1000000 500)) as Hrest.
  { vm_compute; reflexivity. }
  split; [vm_compute; reflexivity|].
  split; [exact Hhb|]. split.
  { intros Hterm.
    specialize (Hterm "s-closed" (mk_row "v1" CLOSED 1000 500) eq_refl eq_refl).
    rewrite Hhb in Hterm. discriminate Hterm. }
  split; [exact Hrest|]. split.
  { intros Hterm.
    specialize (Hterm "s-closed" (mk_row "v1" CLOSED 1000 500) eq_refl eq_refl).
    rewrite Hrest in Hterm. discriminate Hterm. }
  vm_compute; reflexivity.
Qed.

(** ** Well-formed worlds

    The side conditions of the statements above hold in every world the
    system can reach: the handlers keep stored messages dated no later than
    the clock, and keep every bound socket in the room of its session. *)

Lemma on_heartbeat_frame c override w :
  sockets (run (on_heartbeat c override) w) = sockets w
  ∧ chatMessage (run (on_heartbeat c override) w) = chatMessage w
  ∧ clock (run (on_heartbeat c override) w) = clock w.
Proof.
  unfold on_heartbeat, socket_data_sessionId, chatSession_update.
  async_unfold. cbn [fst snd].
  destruct (negb (truthy _)); [done|]. cbn [fst snd].
  by destruct (chatSession w !! _).
Qed.

Lemma patch_heartbeat_frame id w :
  sockets (run (patch_heartbeat id) w) = sockets w
  ∧ chatMessage (run (patch_heartbeat id) w) = chatMessage w
  ∧ clock (run (patch_heartbeat id) w) = clock w.
Proof.
  unfold patch_heartbeat, chatSession_update. async_unfold. cbn [fst snd].
  by destruct (chatSession w !! _).
Qed.

Lemma call_duration_nonneg ext body : 0 ≤ call_duration ext body.
Proof. unfold call_duration. lia. Qed.

Lemma session_trichotomy w sid :
  chatSession w !! sid = None ∨ status_of w sid = Some CLOSED
  ∨ ∃ r, chatSession w !! sid = Some r ∧ ChatSession.status r ≠ CLOSED.
Proof.
  unfold status_of. destruct (chatSession w !! sid) as [r|]; [|by left].
  destruct (decide (ChatSession.status r = CLOSED)) as [Hcl | ?].
  - right; left. simpl. by rewrite Hcl.
  - right; right. by exists r.
Qed.

Lemma no_future_messages_message ext c payload w :
  no_future_messages w → no_future_messages (run (on_message ext c payload) w).
Proof.
  intros Hw.
  destruct (truthy (resolved_id w c (msg_sessionId payload))) eqn:Ht.
  2: { unfold run. by rewrite on_message_unresolved. }
  destruct (decide (trimmed_content payload = "")) as [He | Hc].
  { unfold run. by rewrite on_message_empty. }
  apply truthy_Some_iff in Ht as (sid & Hr & Hne).
  destruct (session_trichotomy w sid) as [Hmiss | [Hcl | (r & Hrow & Hopen)]].
  - unfold run. erewrite on_message_closed; [done..|]. by left.
  - unfold run. erewrite on_message_closed; [done..|]. by right.
  - destruct (on_message_accepted_effect ext c payload w sid r)
      as (Hmsgs & _ & _ & Hclk & _); [done..|].
    pose proof (call_duration_nonneg ext (turn_body w sid payload)) as Hd.
    intros m Hm. rewrite Hclk. rewrite Hmsgs in Hm.
    apply elem_of_app in Hm as [Hm | Hm]; [specialize (Hw m Hm); lia|].
    apply elem_of_cons in Hm as [-> | Hm]; [simpl; lia|].
    unfold turn_replies in Hm.
    destruct (reply_of ext _); try by apply elem_of_nil in Hm.
    apply list_elem_of_singleton in Hm as ->. reflexivity.
Qed.

Lemma no_future_messages_endSession c override w :
  no_future_messages w → no_future_messages (run (on_endSession c override) w).
Proof.
  intros Hw.
  destruct (truthy (resolved_id w c override)) eqn:Ht.
  2: { unfold run. by rewrite on_endSession_unresolved. }
  apply truthy_Some_iff in Ht as (sid & Hr & Hne).
  destruct (chatSession w !! sid) as [r|] eqn:Hrow.
  - unfold run. rewrite (on_endSession_stored c override w sid r) by done.
    intros m Hm. cbn [fst chatMessage clock set_sockets set_chatMessage set_issued
                      set_chatSession] in *.
    apply elem_of_app in Hm as [Hm | Hm]; [by apply Hw|].
    apply list_elem_of_singleton in Hm as ->. reflexivity.
  - unfold run. by rewrite (on_endSession_missing c override w sid).
Qed.

Lemma no_future_messages_perform ext op w :
  no_future_messages w → no_future_messages (run (perform ext op) w).
Proof.
  intros Hw. destruct op as [c payload | c sid | c sid | hb cm | id]; unfold perform.
  - rewrite when_listening_run. destruct (decide _); [|done].
    by apply no_future_messages_message.
  - rewrite when_listening_run. destruct (decide _); [|done].
    destruct (on_heartbeat_frame c sid w) as (_ & Hm & Hc).
    intros m. rewrite Hm, Hc. apply Hw.
  - rewrite when_listening_run. destruct (decide _); [|done].
    by apply no_future_messages_endSession.
  - unfold fire, schedule. cbn [running callback].
    destruct (cleanupTick_frame hb cm w) as (Hm & Hc & _).
    intros m. rewrite Hm, Hc. apply Hw.
  - destruct (patch_heartbeat_frame id w) as (_ & Hm & Hc).
    intros m Hin. unfold run in *. async_unfold.
    destruct (patch_heartbeat id w) as [w' [a|e]]; cbn [fst] in *;
      rewrite Hc; apply Hw; by rewrite <- Hm.
Qed.

Lemma no_future_messages_connection c handshake w :
  no_future_messages w → no_future_messages (run (on_connection c handshake) w).
Proof.
  intros Hw. destruct (on_connection_effect c handshake w)
    as (sid & v & st & _ & Hm & Hc).
  intros m. rewrite Hm, Hc. apply Hw.
Qed.

Lemma in_own_room_push ev s : socket_in_own_room s → socket_in_own_room (push ev s).
Proof. done. Qed.

Lemma in_own_room_deliver room ev s :
  socket_in_own_room s → socket_in_own_room (deliver room ev s).
Proof. unfold deliver. by destruct (decide _). Qed.

Lemma in_own_room_alter (f : Socket → Socket) c0 (sk : gmap nat Socket) :
  (∀ s, socket_in_own_room s → socket_in_own_room (f s)) →
  (∀ c s, sk !! c = Some s → socket_in_own_room s) →
  ∀ c s, alter f c0 sk !! c = Some s → socket_in_own_room s.
Proof.
  intros Hf Hsk c s. destruct (decide (c0 = c)) as [-> | Hne].
  - rewrite lookup_alter_eq. intros (s0 & Hs0 & ->)%fmap_Some. eauto.
  - rewrite lookup_alter_ne by done. eauto.
Qed.

Lemma in_own_room_fmap (f : Socket → Socket) (sk : gmap nat Socket) :
  (∀ s, socket_in_own_room s → socket_in_own_room (f s)) →
  (∀ c s, sk !! c = Some s → socket_in_own_room s) →
  ∀ c s, (f <$> sk) !! c = Some s → socket_in_own_room s.
Proof.
  intros Hf Hsk c s. rewrite lookup_fmap. intros (s0 & Hs0 & ->)%fmap_Some. eauto.
Qed.

Lemma bound_in_room_message ext c payload w :
  bound_in_room w → bound_in_room (run (on_message ext c payload) w).
Proof.
  intros Hw. unfold bound_in_room in *.
  destruct (truthy (resolved_id w c (msg_sessionId payload))) eqn:Ht.
  2: { unfold run. rewrite on_message_unresolved by done.
       cbn [fst sockets set_sockets set_logs].
       apply in_own_room_alter; [apply in_own_room_push | done]. }
  destruct (decide (trimmed_content payload = "")) as [He | Hc].
  { unfold run. by rewrite on_message_empty. }
  apply truthy_Some_iff in Ht as (sid & Hr & Hne).
  destruct (session_trichotomy w sid) as [Hmiss | [Hcl | (r & Hrow & Hopen)]].
  - unfold run. erewrite on_message_closed; [|done..|by left].
    cbn [fst sockets set_sockets].
    apply in_own_room_alter; [apply in_own_room_push | done].
  - unfold run. erewrite on_message_closed; [|done..|by right].
    cbn [fst sockets set_sockets].
    apply in_own_room_alter; [apply in_own_room_push | done].
  - destruct (on_message_accepted_effect ext c payload w sid r)
      as (_ & _ & _ & _ & ->); [done..|].
    unfold turn_sockets. cbv zeta.
    destruct (reply_of ext _).
    all: try (apply in_own_room_alter; [apply in_own_room_push|]).
    all: repeat (apply in_own_room_fmap; [apply in_own_room_deliver|]).
    all: done.
Qed.

Lemma bound_in_room_endSession c override w :
  bound_in_room w → bound_in_room (run (on_endSession c override) w).
Proof.
  intros Hw. unfold bound_in_room in *.
  destruct (truthy (resolved_id w c override)) eqn:Ht.
  2: { unfold run. by rewrite on_endSession_unresolved. }
  apply truthy_Some_iff in Ht as (sid & Hr & Hne).
  destruct (chatSession w !! sid) as [r|] eqn:Hrow.
  - unfold run. rewrite (on_endSession_stored c override w sid r) by done.
    cbn [fst sockets set_sockets set_chatMessage set_issued set_chatSession].
    intros c' s. destruct (decide (c = c')) as [<- | Hne'].
    + rewrite lookup_alter_eq. intros (s0 & _ & ->)%fmap_Some.
      intros sid' Hb. discriminate Hb.
    + rewrite !lookup_alter_ne by done. apply Hw.
  - unfold run. rewrite (on_endSession_missing c override w sid) by done.
    cbn [fst sockets set_sockets set_logs].
    apply in_own_room_alter; [apply in_own_room_push | done].
Qed.

Lemma bound_in_room_perform ext op w :
  bound_in_room w → bound_in_room (run (perform ext op) w).
Proof.
  intros Hw. destruct op as [c payload | c sid | c sid | hb cm | id]; unfold perform.
  - rewrite when_listening_run. destruct (decide _); [|done].
    by apply bound_in_room_message.
  - rewrite when_listening_run. destruct (decide _); [|done].
    destruct (on_heartbeat_frame c sid w) as (Hs & _).
    unfold bound_in_room. by rewrite Hs.
  - rewrite when_listening_run. destruct (decide _); [|done].
    by apply bound_in_room_endSession.
  - unfold fire, schedule. cbn [running callback].
    destruct (cleanupTick_frame hb cm w) as (_ & _ & Hs).
    unfold bound_in_room. by rewrite Hs.
  - destruct (patch_heartbeat_frame id w) as (Hs & _).
    unfold bound_in_room, run in *. async_unfold.
    destruct (patch_heartbeat id w) as [w' [a|e]]; cbn [fst] in *; by rewrite Hs.
Qed.

Lemma bound_in_room_connection c handshake w :
  bound_in_room w → bound_in_room (run (on_connection c handshake) w).
Proof.
  intros Hw. destruct (on_connection_effect c handshake w)
    as (sid & v & st & Hs & _).
  unfold bound_in_room. rewrite Hs. intros c' s.
  destruct (decide (c = c')) as [<- | Hne].
  - rewrite lookup_insert_eq. intros [= <-] sid' [= <-].
    cbn [rooms handshaken_socket]. set_solver.
  - rewrite lookup_insert_ne by done. apply Hw.
Qed.

(** In a well-formed world the sockets bound to the session of an accepted
    message event are in its room, so each of them receives the USER
    message and the reply. *)
Lemma bound_sockets_receive_turn ext c payload w sid r reply c' s :
  bound_in_room w →
  resolved_id w c (msg_sessionId payload) = Some sid → sid ≠ "" →
  trimmed_content payload ≠ "" →
  chatSession w !! sid = Some r → ChatSession.status r ≠ CLOSED →
  reply_of ext (turn_body w sid payload) = JStr reply →
  sockets w !! c' = Some s → data_sessionId s = Some sid →
  sockets (run (on_message ext c payload) w) !! c'
  = Some (push (EvMessage (mapMessage (turn_bot ext w sid payload reply)))
            (push (EvMessage (mapMessage (turn_user w sid payload))) s)).
Proof.
  intros Hw Hr Hne Hc Hrow Hopen Hreply Hs Hbound.
  destruct (on_message_accepted_effect ext c payload w sid r)
    as (_ & _ & _ & _ & ->); [done..|].
  unfold turn_sockets. cbv zeta. rewrite Hreply, !lookup_deliver, Hs.
  cbn [fmap option_fmap option_map].
  pose proof (Hw c' s Hs sid Hbound) as Hin.
  assert (∀ ev s0, sid ∈ rooms s0 → deliver sid ev s0 = push ev s0) as Hdeliver.
  { intros ev s0 ?. unfold deliver. by rewrite decide_True. }
  rewrite (Hdeliver _ s) by done. by rewrite Hdeliver.
Qed.

(** * Further properties of the services *)

(** ** Trimming *)

Lemma behind_Some p s rest : behind p s = Some rest ↔ s = p ++ rest.
Proof.
  revert s. induction p as [|a p IH]; intros [|b s]; simpl.
  - split; congruence.
  - split; congruence.
  - split; [done | discriminate].
  - destruct (decide (a = b)) as [-> | Hne].
    + rewrite IH. split; congruence.
    + split; [done | congruence].
Qed.

Lemma skip_one_Some codes s rest :
  skip_one codes s = Some rest → ∃ p, p ∈ codes ∧ s = p ++ rest.
Proof.
  induction codes as [|p codes IH]; simpl; [done|].
  destruct (behind p s) as [r|] eqn:Hb.
  - intros [= <-]. exists p. split; [left | by apply behind_Some].
  - intros (q & Hq & ->)%IH. exists q. split; [by right | done].
Qed.

Lemma skip_one_None codes s p rest :
  skip_one codes s = None → p ∈ codes → s ≠ p ++ rest.
Proof.
  induction codes as [|q codes IH]; simpl; [by intros _ ?%elem_of_nil|].
  destruct (behind q s) as [r|] eqn:Hb; [done|].
  intros Hn [-> | Hin]%elem_of_cons.
  - intros Heq. apply behind_Some in Heq. congruence.
  - by apply IH.
Qed.

Lemma skip_one_prefix codes t k :
  skip_one codes (t ++ k) = None → skip_one codes t = None.
Proof.
  intros Hn. destruct (skip_one codes t) as [rest|] eqn:Ht; [|done].
  apply skip_one_Some in Ht as (p & Hp & ->).
  destruct (skip_one_None codes ((p ++ rest) ++ k) p (rest ++ k) Hn Hp).
  by rewrite app_assoc.
Qed.

Lemma skip_all_clean n codes s : skip_one codes s = None → skip_all n codes s = s.
Proof. intros Hn. destruct n; simpl; [done|]. by rewrite Hn. Qed.

Lemma skip_all_suffix n codes s : ∃ k, s = k ++ skip_all n codes s.
Proof.
  revert s. induction n as [|n IH]; intros s; simpl; [by exists []|].
  destruct (skip_one codes s) as [rest|] eqn:Hs; [|by exists []].
  apply skip_one_Some in Hs as (p & _ & ->).
  destruct (IH rest) as [k Hk]. exists (p ++ k). rewrite <- app_assoc. by f_equal.
Qed.

Lemma skip_all_done n codes s :
  Forall (λ p, p ≠ []) codes → (length s ≤ n)%nat →
  skip_one codes (skip_all n codes s) = None.
Proof.
  intros Hcodes. revert s. induction n as [|n IH]; intros s Hlen; simpl.
  - destruct s; [|simpl in Hlen; lia].
    destruct (skip_one codes []) as [rest|] eqn:Hs; [|done].
    apply skip_one_Some in Hs as (p & Hp & Heq).
    symmetry in Heq. apply app_eq_nil in Heq as [-> _].
    by apply (proj1 (Forall_forall _ _) Hcodes) in Hp.
  - destruct (skip_one codes s) as [rest|] eqn:Hs; [|done].
    apply IH. apply skip_one_Some in Hs as (p & Hp & ->).
    apply (proj1 (Forall_forall _ _) Hcodes) in Hp.
    rewrite length_app in Hlen. destruct p; [done|]. simpl in Hlen. lia.
Qed.

Lemma white_space_codes : Forall (λ p : list ascii, p ≠ []) white_space.
Proof. repeat constructor; discriminate. Qed.

Lemma white_space_reversed : Forall (λ p : list ascii, p ≠ []) (reverse <$> white_space).
Proof. repeat constructor; discriminate. Qed.

Lemma trim_start_idem s : trim_start (trim_start s) = trim_start s.
Proof.
  unfold trim_start. rewrite String.list_ascii_of_string_of_list_ascii.
  f_equal. apply skip_all_clean, skip_all_done; [apply white_space_codes | done].
Qed.

Lemma trim_end_idem s : trim_end (trim_end s) = trim_end s.
Proof.
  unfold trim_end. rewrite String.list_ascii_of_string_of_list_ascii, reverse_involutive.
  f_equal. f_equal. apply skip_all_clean, skip_all_done; [apply white_space_reversed | done].
Qed.

Lemma trim_start_trim_end t : trim_start t = t → trim_start (trim_end t) = trim_end t.
Proof.
  intros Ht. unfold trim_start at 1. unfold trim_end.
  rewrite String.list_ascii_of_string_of_list_ascii.
  set (l := String.list_ascii_of_string t).
  f_equal. apply skip_all_clean.
  destruct (skip_all_suffix (length (reverse l)) (reverse <$> white_space) (reverse l))
    as [k Hk].
  set (x := skip_all _ _ _) in *.
  assert (l = reverse x ++ reverse k) as Hl.
  { rewrite <- reverse_app, <- Hk. by rewrite reverse_involutive. }
  apply (skip_one_prefix _ _ (reverse k)). rewrite <- Hl.
  assert (skip_all (length l) white_space l = l) as Hclean.
  { unfold trim_start in Ht. fold l in Ht.
    apply (f_equal String.list_ascii_of_string) in Ht.
    by rewrite String.list_ascii_of_string_of_list_ascii in Ht. }
  rewrite <- Hclean. apply skip_all_done; [apply white_space_codes | done].
Qed.

(** Each white-space code point on its own is blank. *)
Lemma trim_white_space :
  Forall (λ p, trim (String.string_of_list_ascii p) = "") white_space.
Proof. repeat constructor. Qed.

(** Trimming a trimmed string changes nothing. *)
Lemma trim_idem s : trim (trim s) = trim s.
Proof.
  unfold trim. rewrite trim_start_trim_end by apply trim_start_idem.
  apply trim_end_idem.
Qed.

(** ** Loading the configuration *)



Lemma parseNumber_cases Number_ value key fallback n :
  parseNumber Number_ value key fallback = Returned n →
  n = fallback ∨ n ≠ NaN.
Proof.
  unfold parseNumber. destruct (negb (truthy value)); [intros [= <-]; by left|].
  destruct (Number_ _) as [|z] eqn:Hn; simpl; [done|].
  intros [= <-]. by right.
Qed.

(** X2. [parseNumber] returns the fallback for a variable that is unset or
    empty, throws for a value that [Number] reads as NaN, and returns the
    number read otherwise; with a fallback that is a number it never
    returns NaN. *)
Theorem parseNumber_spec (Number_ : NumberOf) (value : option string) (key : string)
    (fallback : number) :
  (value = None ∨ value = Some "" →
   parseNumber Number_ value key fallback = Returned fallback)
  ∧ (∀ raw, value = Some raw → raw ≠ "" → Number_ raw = NaN →
     parseNumber Number_ value key fallback
     = Thrown ("Environment variable " +:+ key +:+ " must be a valid number"))
  ∧ (∀ raw z, value = Some raw → raw ≠ "" → Number_ raw = Num z →
     parseNumber Number_ value key fallback = Returned (Num z))
  ∧ (∀ n, fallback ≠ NaN →
     parseNumber Number_ value key fallback = Returned n → n ≠ NaN).
Proof.
  unfold parseNumber. split; [|split; [|split]].
  - by intros [-> | ->].
  - intros raw -> Hne Hnan. simpl. rewrite bool_decide_true by done. simpl.
    by rewrite Hnan.
  - intros raw z -> Hne Hnum. simpl. rewrite bool_decide_true by done. simpl.
    by rewrite Hnum.
  - intros n Hfb Hret.
    destruct (parseNumber_cases Number_ value key fallback n Hret) as [-> | ?]; done.
Qed.

Lemma parseNumber_spec_witness :
  parseNumber sample_Number (Some "") "PORT" (Num 3001) = Returned (Num 3001)
  ∧ parseNumber sample_Number (Some "300") "PORT" (Num 3001) = Returned (Num 300).
Proof.
  split.
  - apply (proj1 (parseNumber_spec sample_Number (Some "") "PORT" (Num 3001))).
    right. reflexivity.
  - apply (proj1 (proj2 (proj2
             (parseNumber_spec sample_Number (Some "300") "PORT" (Num 3001))))
             "300" 300); [reflexivity | intros H; discriminate H | reflexivity].
Defined.

Lemma loadEnv_fields Number_ src e :
  loadEnv Number_ src = Returned e →
  parseNumber Number_ (src !! "HEARTBEAT_TIMEOUT_SECONDS")
    "HEARTBEAT_TIMEOUT_SECONDS" (Num 120)
    = Returned (heartbeatTimeoutSeconds (cleanup e))
  ∧ parseNumber Number_ (src !! "SESSION_CLOSE_MINUTES")
      "SESSION_CLOSE_MINUTES" (Num 15)
    = Returned (sessionCloseMinutes (cleanup e))
  ∧ requireString (src !! "N8N_WEBHOOK_URL") "N8N_WEBHOOK_URL"
    = Returned (n8nWebhookUrl e)
  ∧ requireString (src !! "DATABASE_URL") "DATABASE_URL" = Returned (databaseUrl e)
  ∧ corsOrigins e
    = match parseOrigins (default "" (src !! "CORS_ORIGIN")) with
      | [] => ["http://localhost:3000"]
      | origins => origins
      end.
Proof.
  unfold loadEnv, bind_outcome.
  destruct (parseNumber _ _ "PORT" _); [|done].
  destruct (requireString _ "N8N_WEBHOOK_URL"); [|done].
  destruct (requireString _ "DATABASE_URL"); [|done].
  destruct (parseNumber _ _ "HEARTBEAT_TIMEOUT_SECONDS" _); [|done].
  destruct (parseNumber _ _ "SESSION_CLOSE_MINUTES" _); [|done].
  intros [= <-]. simpl. repeat split; try done.
  by destruct (parseOrigins _).
Qed.

(** X3. With a configuration produced by the loader the sweep job is
    always scheduled: both settings are numbers, so [startCleanupJob]
    never takes its NaN branch, logs nothing and returns a running task
    for those settings. *)
Theorem loaded_env_is_scheduled (Number_ : NumberOf) (src : gmap string string)
    (e : LoadedEnv) (w : World) :
  loadEnv Number_ src = Returned e →
  ∃ hb cm,
    cleanup e = {| heartbeatTimeoutSeconds := Num hb; sessionCloseMinutes := Num cm |}
    ∧ startCleanupJob (cleanup e) w = (w, Returned (schedule (cleanupTick hb cm))).
Proof.
  intros Hload. destruct (loadEnv_fields Number_ src e Hload) as (Hhb & Hcm & _).
  apply parseNumber_cases in Hhb, Hcm.
  destruct (cleanup e) as [hb cm]. simpl in *.
  destruct hb as [|hb]; [by destruct Hhb|].
  destruct cm as [|cm]; [by destruct Hcm|].
  by exists hb, cm.
Qed.

Lemma loaded_env_is_scheduled_witness :
  ∃ e hb cm,
    loadEnv sample_Number sample_envSource = Returned e
    ∧ startCleanupJob (cleanup e) sample_world
      = (sample_world, Returned (schedule (cleanupTick hb cm))).
Proof.
  eexists. 
  destruct (loaded_env_is_scheduled sample_Number sample_envSource _ sample_world
              eq_refl) as (hb & cm & _ & Hjob).
  exists hb, cm. split; [reflexivity | exact Hjob].
Defined.

Lemma parseOrigins_elem raw o :
  o ∈ parseOrigins raw → o ≠ "" ∧ trim o = o.
Proof.
  unfold parseOrigins. rewrite list_elem_of_filter, list_elem_of_fmap.
  intros [Hne (x & -> & _)]. split; [done | apply trim_idem].
Qed.

(** X4. The list of allowed origins of a loaded configuration is never
    empty, and each origin is non-empty and trimmed; the CORS middleware
    of the server therefore always gets that list and never the wildcard. *)
Theorem loaded_env_origins (Number_ : NumberOf) (src : gmap string string)
    (e : LoadedEnv) :
  loadEnv Number_ src = Returned e →
  corsOrigins e ≠ []
  ∧ (∀ o, o ∈ corsOrigins e → o ≠ "" ∧ trim o = o)
  ∧ cors_origin e = Origins (corsOrigins e).
Proof.
  intros Hload. destruct (loadEnv_fields Number_ src e Hload) as (_ & _ & _ & _ & Ho).
  assert (corsOrigins e ≠ []) as Hne.
  { rewrite Ho. by destruct (parseOrigins _). }
  split; [done|]. split.
  - intros o. rewrite Ho.
    destruct (parseOrigins _) as [|o1 os] eqn:Hp.
    + intros ->%list_elem_of_singleton. split; [done | reflexivity].
    + rewrite <- Hp. apply parseOrigins_elem.
  - unfold cors_origin. by destruct (corsOrigins e).
Qed.

Lemma loaded_env_origins_witness :
  ∃ e, loadEnv sample_Number sample_envSource = Returned e
       ∧ cors_origin e = Origins (corsOrigins e).
Proof.
  eexists. split; [reflexivity|].
  apply (loaded_env_origins sample_Number sample_envSource _ eq_refl).
Defined.

(** ** The sweep job, continued *)

Lemma is_open_before_closed t r : is_open_before t (set_status CLOSED r) = false.
Proof.
  apply not_true_is_false. intros [Hst _]%is_open_before_spec. by destruct Hst.
Qed.

Lemma is_active_before_other t st r :
  st ≠ ACTIVE → is_active_before t (set_status st r) = false.
Proof.
  intros Hst. apply not_true_is_false. by intros [? _]%is_active_before_spec.
Qed.

Lemma is_open_before_inactive t r :
  is_open_before t (set_status INACTIVE r)
  = bool_decide (ChatSession.last_active_at r < t).
Proof.
  apply eq_true_iff_eq. rewrite is_open_before_spec, bool_decide_eq_true.
  simpl. split; [by intros [_ ?] | by intros ?].
Qed.

Lemma sweep_row_swapped now hb cm r :
  apply_where (is_active_before (inactiveThreshold now hb)) (set_status INACTIVE)
    (apply_where (is_open_before (closeThreshold now cm)) (set_status CLOSED) r)
  = sweep_row now hb cm r.
Proof.
  rewrite sweep_row_cases. unfold apply_where.
  destruct (is_open_before _ r) eqn:Ho.
  - by rewrite is_active_before_other.
  - done.
Qed.

(** X5. The two bulk updates of a tick commute: closing first and marking
    inactive second leaves the session table as the order of the source
    does. *)
Theorem cleanup_updates_commute (now hb cm : Z) (w : World) :
  chatSession (run (markClosed (closeThreshold now cm);;
                    markInactive (inactiveThreshold now hb)) w)
  = chatSession (run (markInactive (inactiveThreshold now hb);;
                      markClosed (closeThreshold now cm)) w).
Proof.
  unfold markInactive, markClosed, chatSession_updateMany. async_unfold.
  cbn [fst snd chatSession set_chatSession].
  rewrite <- !map_fmap_compose. apply map_fmap_ext. intros id r _.
  cbn [compose]. by rewrite sweep_row_swapped.
Qed.

(** X6. A tick leaves alone every session whose idle time is within both
    thresholds; in particular, with settings that are not negative, a
    session whose last activity is the instant of the tick keeps its row,
    whatever its status. *)
Theorem tick_spares_recent (hb cm : Z) (w : World) (id : string) (r : ChatSession.row) :
  chatSession w !! id = Some r →
  (clock w - ChatSession.last_active_at r ≤ hb * 1000 →
   clock w - ChatSession.last_active_at r ≤ cm * 60 * 1000 →
   chatSession (run (cleanupTick hb cm) w) !! id = Some r)
  ∧ (0 ≤ hb → 0 ≤ cm → clock w ≤ ChatSession.last_active_at r →
     chatSession (run (cleanupTick hb cm) w) !! id = Some r).
Proof.
  intros Hrow.
  assert (clock w - ChatSession.last_active_at r ≤ hb * 1000 →
          clock w - ChatSession.last_active_at r ≤ cm * 60 * 1000 →
          chatSession (run (cleanupTick hb cm) w) !! id = Some r) as Hwithin.
  { intros Hhb Hcm. rewrite cleanupTick_chatSession.
    assert (is_open_before (closeThreshold (clock w) cm) r = false) as Ho.
    { apply not_true_is_false. intros [_ Hlt]%is_open_before_spec.
      unfold closeThreshold in Hlt. lia. }
    assert (is_active_before (inactiveThreshold (clock w) hb) r = false) as Ha.
    { apply not_true_is_false. intros [_ Hlt]%is_active_before_spec.
      unfold inactiveThreshold in Hlt. lia. }
    destruct (new_Date (inactiveThreshold _ _)); [|done].
    destruct (new_Date (closeThreshold _ _));
      rewrite lookup_fmap, Hrow; cbn [fmap option_fmap option_map]; f_equal.
    - by rewrite sweep_row_cases, Ho, Ha.
    - unfold apply_where. by rewrite Ha. }
  split; [exact Hwithin|].
  intros Hhb Hcm Hnow. apply Hwithin; lia.
Qed.

Lemma tick_spares_recent_witness :
  chatSession (run (cleanupTick 120 15) sample_world) !! "s-now"
  = Some (mk_row "v4" ACTIVE 1000000 4000).
Proof.
  apply (proj2 (tick_spares_recent 120 15 sample_world "s-now"
                  (mk_row "v4" ACTIVE 1000000 4000) eq_refl));
    vm_compute; intros H; discriminate H.
Defined.

Lemma new_Date_invalid t : ¬ valid_date t → new_Date t = None.
Proof. intros Ht. unfold new_Date, max_time_value. by rewrite decide_False. Qed.

Lemma cleanupTick_logs_invalid hb cm w :
  ¬ valid_date (clock w - hb * 1000) ∨ ¬ valid_date (clock w - cm * 60 * 1000) →
  level <$> logs (run (cleanupTick hb cm) w) = (level <$> logs w) ++ [LError].
Proof.
  intros Hinv.
  unfold cleanupTick, date_argument, markInactive, markClosed, chatSession_updateMany.
  async_unfold. cbn [fst snd clock]. unfold inactiveThreshold, closeThreshold.
  destruct (decide (valid_date (clock w - hb * 1000))) as [Hi | Hi].
  - destruct Hinv as [? | Hc]; [done|].
    rewrite (new_Date_valid _ Hi), (new_Date_invalid _ Hc).
    cbn [fst snd logs set_logs set_chatSession]. by rewrite fmap_app.
  - rewrite (new_Date_invalid _ Hi).
    cbn [fst snd logs set_logs]. by rewrite fmap_app.
Qed.

(** X23. A tick whose inactivity threshold is not a valid date is rejected
    at its first bulk update: no session row changes and one error is
    logged. A tick whose inactivity threshold is a valid date and whose
    close threshold is not runs the first update alone: the sessions that
    are ACTIVE and older than the inactivity timeout become INACTIVE, no
    session is closed, and one error is logged. In both cases the
    messages, the sockets and the clock are left as they were. *)
Theorem tick_abandoned_on_invalid_date (hb cm : Z) (w : World) :
  let w' := run (cleanupTick hb cm) w in
  (¬ valid_date (clock w - hb * 1000) →
     chatSession w' = chatSession w
     ∧ level <$> logs w' = (level <$> logs w) ++ [LError])
  ∧ (valid_date (clock w - hb * 1000) → ¬ valid_date (clock w - cm * 60 * 1000) →
     (∀ id r, chatSession w !! id = Some r →
        chatSession w' !! id
        = Some (if decide (ChatSession.status r = ACTIVE
                           ∧ ChatSession.last_active_at r < clock w - hb * 1000)
                then mk_row (ChatSession.visitor_id r) INACTIVE
                       (ChatSession.last_active_at r) (ChatSession.created_at r)
                else r))
     ∧ dom (chatSession w') = dom (chatSession w)
     ∧ level <$> logs w' = (level <$> logs w) ++ [LError])
  ∧ chatMessage w' = chatMessage w ∧ sockets w' = sockets w ∧ clock w' = clock w.
Proof.
  cbv zeta. split; [|split].
  - intros Hi. split; [|apply cleanupTick_logs_invalid; by left].
    rewrite cleanupTick_chatSession. unfold inactiveThreshold.
    by rewrite (new_Date_invalid _ Hi).
  - intros Hi Hc.
    assert (chatSession (run (cleanupTick hb cm) w)
            = apply_where (is_active_before (inactiveThreshold (clock w) hb))
                (set_status INACTIVE) <$> chatSession w) as Htbl.
    { rewrite cleanupTick_chatSession. unfold inactiveThreshold, closeThreshold.
      by rewrite (new_Date_valid _ Hi), (new_Date_invalid _ Hc). }
    split; [|split; [by rewrite Htbl, dom_fmap_L
                    | apply cleanupTick_logs_invalid; by right]].
    intros id r Hrow. rewrite Htbl, lookup_fmap, Hrow.
    cbn [fmap option_fmap option_map]. f_equal. unfold apply_where.
    destruct (is_active_before _ r) eqn:Ha.
    + apply is_active_before_spec in Ha. unfold inactiveThreshold in Ha.
      by rewrite decide_True.
    + rewrite decide_False; [done|]. intros Hyes.
      apply not_true_iff_false in Ha. apply Ha. by apply is_active_before_spec.
  - destruct (cleanupTick_frame hb cm w) as (Hm & Hc & Hs). done.
Qed.

Lemma tick_abandoned_on_invalid_date_witness :
  chatSession (run (cleanupTick 10000000000000 15) sample_world)
  = chatSession sample_world
  ∧ chatSession (run (cleanupTick 120 10000000000000) sample_world) !! "s-idle"
    = Some (mk_row "v2" INACTIVE 700000 2000)
  ∧ chatSession (run (cleanupTick 120 10000000000000) sample_world) !! "s-stale"
    = Some (mk_row "v3" INACTIVE 50000 3000)
  ∧ level <$> logs (run (cleanupTick 120 10000000000000) sample_world) = [LError].
Proof.
  split; [|split; [|split]].
  - apply (proj1 (tick_abandoned_on_invalid_date 10000000000000 15 sample_world)).
    vm_compute. intros [H _]. by apply H.
  - refine (proj1 (proj1 (proj2
              (tick_abandoned_on_invalid_date 120 10000000000000 sample_world)) _ _)
              "s-idle" (mk_row "v2" ACTIVE 700000 2000) _);
      [vm_compute; split; intros H; discriminate H
      | vm_compute; intros [H _]; by apply H
      | vm_compute; reflexivity].
  - refine (proj1 (proj1 (proj2
              (tick_abandoned_on_invalid_date 120 10000000000000 sample_world)) _ _)
              "s-stale" (mk_row "v3" ACTIVE 50000 3000) _);
      [vm_compute; split; intros H; discriminate H
      | vm_compute; intros [H _]; by apply H
      | vm_compute; reflexivity].
  - refine (proj2 (proj2 (proj1 (proj2
              (tick_abandoned_on_invalid_date 120 10000000000000 sample_world)) _ _)));
      [vm_compute; split; intros H; discriminate H
      | vm_compute; intros [H _]; by apply H].
Defined.

(** ** Heartbeats on the socket *)

Lemma on_heartbeat_eq c override w :
  on_heartbeat c override w =
    if negb (truthy (resolved_id w c override)) then (w, Returned tt)
    else match chatSession w !! default "" (resolved_id w c override) with
         | Some r =>
             (set_chatSession
                <[default "" (resolved_id w c override) := touch (clock w) ACTIVE r]> w,
              Returned tt)
         | None =>
             (set_logs (λ ls, ls ++ [ {| level := LWarn;
                                         text := "Failed to record heartbeat" |} ]) w,
              Returned tt)
         end.
Proof.
  unfold resolved_id, bound_of, on_heartbeat, socket_data_sessionId, chatSession_update.
  async_unfold. cbn [fst snd]. simpl.
  destruct (negb (truthy _)); [done|]. cbn [fst snd].
  by destruct (chatSession w !! _).
Qed.

(** X7. A socket heartbeat is silent and touches one row at most. Without
    a resolvable id it does nothing at all; for a stored session it sets
    the status ACTIVE, whatever it was, and the last activity to the
    current instant, and changes nothing else (no event, no message, no
    log); for an id that names no session it only leaves a warning in the
    log. *)
Theorem on_heartbeat_effect (c : nat) (override : option string) (w : World) :
  (truthy (resolved_id w c override) = false →
   on_heartbeat c override w = (w, Returned tt))
  ∧ (∀ sid r, resolved_id w c override = Some sid → sid ≠ "" →
       chatSession w !! sid = Some r →
       on_heartbeat c override w
       = (set_chatSession <[sid := touch (clock w) ACTIVE r]> w, Returned tt))
  ∧ (∀ sid, resolved_id w c override = Some sid → sid ≠ "" →
       chatSession w !! sid = None →
       on_heartbeat c override w
       = (set_logs (λ ls, ls ++ [ {| level := LWarn;
                                     text := "Failed to record heartbeat" |} ]) w,
          Returned tt)).
Proof.
  unfold resolved_id, bound_of, on_heartbeat, socket_data_sessionId, chatSession_update.
  async_unfold. cbn [fst snd]. split; [|split].
  - intros Hf. simpl in *. by rewrite Hf.
  - intros sid r Hr Hne Hrow. simpl in Hr |- *. rewrite Hr. simpl.
    rewrite bool_decide_true by done. simpl. by rewrite Hrow.
  - intros sid Hr Hne Hrow. simpl in Hr |- *. rewrite Hr. simpl.
    rewrite bool_decide_true by done. simpl. by rewrite Hrow.
Qed.

Lemma on_heartbeat_effect_witness :
  chatSession (run (on_heartbeat 7 (Some "s-idle")) sample_world) !! "s-idle"
  = Some (mk_row "v2" ACTIVE 1000000 2000)
  ∧ sockets (run (on_heartbeat 7 (Some "s-idle")) sample_world)
    = sockets sample_world.
Proof.
  unfold run.
  rewrite (proj1 (proj2 (on_heartbeat_effect 7 (Some "s-idle") sample_world))
             "s-idle" (mk_row "v2" ACTIVE 700000 2000));
    [| reflexivity | intros H; discriminate H | vm_compute; reflexivity].
  split; [apply lookup_insert_eq | reflexivity].
Defined.

(** ** Session resolution and the handshake, continued *)

Lemma ensureSession_outcome visitorId requested w :
  ∃ w1 s,
    ensureSession visitorId requested w = (w1, Returned s)
    ∧ chatSession w1 !! ChatSession.id s = Some (ChatSession.columns s)
    ∧ ChatSession.status (ChatSession.columns s) ≠ CLOSED
    ∧ (∀ id, id ≠ ChatSession.id s → chatSession w1 !! id = chatSession w !! id)
    ∧ (w1 = w
       ∨ (w1 = after_create w visitorId ∧ s = created_session w visitorId))
    ∧ chatMessage w1 = chatMessage w ∧ sockets w1 = sockets w ∧ clock w1 = clock w.
Proof.
  rewrite ensureSession_eq.
  destruct (claimed_session w requested) as [s|] eqn:Hs.
  { apply claimed_session_Some in Hs as (_ & _ & Hrow & Hst).
    exists w, s. repeat split; try done. by left. }
  destruct (most_recent (open_sessions_of w visitorId)) as [e|] eqn:He.
  { apply most_recent_Some in He as [Hin _].
    apply elem_of_open_sessions_of in Hin as (Hrow & _ & Hst).
    exists w, e. repeat split; try done. by left. }
  exists (after_create w visitorId), (created_session w visitorId).
  split; [done|]. split; [apply lookup_insert_eq|]. split; [done|].
  split; [|split; [by right | done]].
  intros id Hid. cbn [after_create chatSession set_chatSession set_issued].
  rewrite lookup_insert_ne; [done|]. intros Heq. by destruct Hid.
Qed.

(** X8. [ensureSession] always returns, and what it returns is a stored
    session that is not CLOSED. It adds at most the one row it returns (an
    ACTIVE session of the visitor, when nothing could be reused) and
    removes none: every other row is as before, and so are the messages
    and the sockets. *)
Theorem ensureSession_stored_open (visitorId : string) (requested : option string)
    (w : World) :
  ∃ s,
    result (ensureSession visitorId requested) w = Returned s
    ∧ chatSession (run (ensureSession visitorId requested) w) !! ChatSession.id s
      = Some (ChatSession.columns s)
    ∧ ChatSession.status (ChatSession.columns s) ≠ CLOSED
    ∧ (∀ id, id ≠ ChatSession.id s →
         chatSession (run (ensureSession visitorId requested) w) !! id
         = chatSession w !! id)
    ∧ (chatSession (run (ensureSession visitorId requested) w) = chatSession w
       ∨ (ChatSession.visitor_id (ChatSession.columns s) = visitorId
          ∧ ChatSession.status (ChatSession.columns s) = ACTIVE
          ∧ ChatSession.last_active_at (ChatSession.columns s) = clock w))
    ∧ dom (chatSession w) ⊆ dom (chatSession (run (ensureSession visitorId requested) w))
    ∧ chatMessage (run (ensureSession visitorId requested) w) = chatMessage w
    ∧ sockets (run (ensureSession visitorId requested) w) = sockets w.
Proof.
  destruct (ensureSession_outcome visitorId requested w)
    as (w1 & s & He & Hrow & Hopen & Hother & Hwhich & Hm & Hs & _).
  exists s. unfold run, result. rewrite He. cbn [fst snd].
  split; [done|]. split; [done|]. split; [done|]. split; [done|].
  split; [|split; [|done]].
  - destruct Hwhich as [-> | [_ ->]]; [by left | by right].
  - intros id [r Hid]%elem_of_dom. apply elem_of_dom.
    destruct (decide (id = ChatSession.id s)) as [-> | Hne].
    + by rewrite Hrow.
    + rewrite Hother by done. by rewrite Hid.
Qed.

Lemma on_connection_full (c : nat) (handshake : Handshake) (w : World) :
  ∃ sid visitorId r,
    sockets (run (on_connection c handshake) w)
      = <[c := handshaken_socket sid visitorId
                 (EvSession sid visitorId (ChatSession.status r)
                    :: history_events (replayed sid w))]>
          (sockets w)
    ∧ ChatSession.status r ≠ CLOSED
    ∧ (chatSession w !! sid = Some r ∨ ChatSession.status r = ACTIVE)
    ∧ chatSession (run (on_connection c handshake) w) !! sid
      = Some (touch (clock w) ACTIVE r)
    ∧ (∀ id, id ≠ sid →
         chatSession (run (on_connection c handshake) w) !! id = chatSession w !! id)
    ∧ chatMessage (run (on_connection c handshake) w) = chatMessage w.
Proof.
  unfold on_connection, handleConnection.
  set (claimed := or_else (auth_visitorId handshake) (query_visitorId handshake)).
  set (requested := or_else (auth_sessionId handshake) (query_sessionId handshake)).
  set (w0 := set_sockets <[c:=new_socket]> w).
  assert (∃ w1 visitorId,
            (if truthy claimed then mret (default "" claimed) else uuid) w0
              = (w1, Returned visitorId)
            ∧ chatMessage w1 = chatMessage w ∧ sockets w1 = sockets w0
            ∧ clock w1 = clock w ∧ chatSession w1 = chatSession w)
    as (w1 & visitorId & Hv & Hm1 & Hs1 & Hc1 & Ht1).
  { destruct (truthy claimed); eexists _, _; (split; [reflexivity|done]). }
  destruct (ensureSession_outcome visitorId requested w1)
    as (w2 & s & He & Hrow & Hopen & Hother & Hwhich & Hm2 & Hs2 & Hc2).
  exists (ChatSession.id s), visitorId, (ChatSession.columns s).
  assert (chatSession w !! ChatSession.id s = Some (ChatSession.columns s)
          ∨ ChatSession.status (ChatSession.columns s) = ACTIVE) as Hbefore.
  { destruct Hwhich as [-> | [_ ->]]; [left; by rewrite <- Ht1 | by right]. }
  unfold run, replayed, history_asc.
  async_unfold. cbn [fst snd]. fold w0. rewrite Hv, He. cbn [fst snd].
  unfold socket_emit, socket_join, registerSocketEvents, on_socket, modify.
  unfold getHistory, chatMessage_findMany_asc, gets. async_unfold.
  cbn [fst snd chatMessage set_sockets]. rewrite Hm2, Hm1.
  set (rows := take default_limit (order_asc (of_session (ChatSession.id s) (chatMessage w)))).
  destruct rows as [|m rows']; cbn [fmap list_fmap history_events fst snd].
  all: unfold chatSession_update; cbn [chatSession set_sockets]; rewrite Hrow.
  all: cbn [fst snd sockets chatMessage chatSession clock set_sockets set_chatSession].
  all: rewrite Hs2, Hs1, Hm2, Hm1, Hc2, Hc1; subst w0; cbn [sockets set_sockets].
  all: split; [rewrite !alter_insert_eq; reflexivity|].
  all: split; [done|]; split; [done|].
  all: split; [apply lookup_insert_eq|]; split; [|done].
  all: intros id Hid; rewrite lookup_insert_ne by done.
  all: by rewrite Hother, Ht1.
Qed.

(** X9. A connect always succeeds in binding the socket: the socket ends
    up bound to the resolved session, in its room and listening, and has
    received the session event and, if there are messages, the history.
    The resolved session is not CLOSED; after the handshake its row is
    ACTIVE with the current instant as last activity, while the status
    announced in the session event is the one from before that refresh
    (the stored one, or ACTIVE for a new session). No other session row,
    no other socket and no message changes. *)
Theorem on_connection_activates (c : nat) (handshake : Handshake) (w : World) :
  let w' := run (on_connection c handshake) w in
  ∃ sid visitorId announced,
    outbox_of w' c
      = EvSession sid visitorId announced :: history_events (replayed sid w)
    ∧ bound_of w' c = Some sid
    ∧ (∃ s, sockets w' !! c = Some s ∧ sid ∈ rooms s ∧ listening s = true)
    ∧ (∀ c', c' ≠ c → sockets w' !! c' = sockets w !! c')
    ∧ announced ≠ CLOSED
    ∧ (status_of w sid = Some announced ∨ announced = ACTIVE)
    ∧ status_of w' sid = Some ACTIVE
    ∧ ChatSession.last_active_at <$> chatSession w' !! sid = Some (clock w)
    ∧ (∀ id, id ≠ sid → chatSession w' !! id = chatSession w !! id)
    ∧ chatMessage w' = chatMessage w.
Proof.
  cbv zeta. destruct (on_connection_full c handshake w)
    as (sid & v & r & Hsk & Hopen & Hbefore & Hrow & Hother & Hm).
  exists sid, v, (ChatSession.status r).
  unfold outbox_of, bound_of, status_of. rewrite Hsk, Hrow, lookup_insert_eq.
  split; [done|]. split; [done|]. split.
  { eexists. split; [reflexivity|]. split; [|done].
    cbn [rooms handshaken_socket]. apply elem_of_union. left.
    by apply elem_of_singleton. }
  split; [intros c' Hc'; by rewrite lookup_insert_ne|].
  split; [done|]. split; [|done].
  destruct Hbefore as [-> | ->]; [by left | by right].
Qed.

Lemma on_connection_activates_witness :
  ∃ sid,
    bound_of (run (on_connection 3 returning_visitor) (long_world 2)) 3 = Some sid
    ∧ status_of (run (on_connection 3 returning_visitor) (long_world 2)) sid
      = Some ACTIVE.
Proof.
  destruct (on_connection_activates 3 returning_visitor (long_world 2))
    as (sid & v & st & _ & Hb & _ & _ & _ & _ & Hst & _).
  exists sid. split; [exact Hb | exact Hst].
Defined.

(** ** History, continued *)

Lemma getHistory_eq sid limit w :
  getHistory sid limit w = (w, Returned (mapMessage <$> take limit (history_asc sid w))).
Proof. reflexivity. Qed.

Lemma history_asc_elem sid w m :
  m ∈ history_asc sid w ↔ m ∈ chatMessage w ∧ ChatMessage.session_id m = sid.
Proof.
  unfold history_asc. rewrite order_asc_perm. unfold of_session.
  rewrite list_elem_of_filter. tauto.
Qed.

(** X10. [getHistory] reads without writing, and what it returns for a
    session is made of messages of that session only: at most [limit]
    rows, each the image of a stored message of the session, in ascending
    creation order. When the session has no more than [limit] messages the
    rows are exactly its messages; a smaller limit returns a prefix of what
    a larger limit returns. *)
Theorem getHistory_spec (sid : string) (limit : nat) (w : World) :
  let rows := take limit (history_asc sid w) in
  getHistory sid limit w = (w, Returned (mapMessage <$> rows))
  ∧ (length rows ≤ limit)%nat
  ∧ (∀ m, m ∈ rows → m ∈ chatMessage w ∧ ChatMessage.session_id m = sid)
  ∧ StronglySorted created_le rows
  ∧ ((length (of_session sid (chatMessage w)) ≤ limit)%nat →
     rows ≡ₚ of_session sid (chatMessage w))
  ∧ (∀ limit', (limit ≤ limit')%nat →
       rows = take limit (take limit' (history_asc sid w))).
Proof.
  cbv zeta. split; [apply getHistory_eq|]. split; [rewrite length_take; lia|].
  split; [|split; [|split]].
  - intros m Hm. apply history_asc_elem. by apply (subseteq_take limit).
  - apply (StronglySorted_app_1_l created_le _ (drop limit (history_asc sid w))).
    rewrite take_drop. apply order_asc_sorted.
  - intros Hlen. rewrite take_ge.
    + apply order_asc_perm.
    + unfold history_asc. by rewrite order_asc_perm.
  - intros limit' Hle. by rewrite take_take, Nat.min_l.
Qed.

Lemma getHistory_spec_witness :
  take 2 (history_asc "s-long" (long_world 2))
  ≡ₚ of_session "s-long" (chatMessage (long_world 2)).
Proof.
  apply (proj1 (proj2 (proj2 (proj2 (proj2
           (getHistory_spec "s-long" 2 (long_world 2))))))).
  vm_compute. lia.
Defined.

(** ** Ending a session, continued *)

(** X11. An end-session event that names another stored session than the
    one the socket is bound to closes the named session, unbinds the
    socket and makes it leave the room of the named session only: the
    socket stays in the room of the session it was bound to, whose row is
    not touched, so it keeps receiving the broadcasts of that session. *)
Theorem endSession_override_keeps_room (c : nat) (sid b : string) (w : World)
    (s : Socket) (r : ChatSession.row) :
  sockets w !! c = Some s → data_sessionId s = Some b → b ∈ rooms s →
  sid ≠ "" → sid ≠ b → chatSession w !! sid = Some r →
  status_of (run (on_endSession c (Some sid)) w) sid = Some CLOSED
  ∧ chatSession (run (on_endSession c (Some sid)) w) !! b = chatSession w !! b
  ∧ ∃ s', sockets (run (on_endSession c (Some sid)) w) !! c = Some s'
          ∧ data_sessionId s' = None
          ∧ b ∈ rooms s'
          ∧ ∀ ev, deliver b ev s' = push ev s'.
Proof.
  intros Hs Hb Hin Hne Hsb Hrow. unfold run.
  rewrite (on_endSession_stored c (Some sid) w sid r) by done.
  cbn [fst]. unfold status_of.
  cbn [chatSession sockets set_sockets set_chatMessage set_issued set_chatSession].
  split; [by rewrite lookup_insert_eq|]. split; [by rewrite lookup_insert_ne|].
  rewrite !lookup_alter_eq, Hs. cbn [fmap option_fmap option_map].
  eexists. split; [reflexivity|]. split; [done|].
  assert (b ∈ rooms s ∖ {[sid]}) as Hin'.
  { apply elem_of_difference. split; [done|]. by intros ->%elem_of_singleton. }
  split; [exact Hin'|].
  intros ev. unfold deliver. cbn [rooms with_sessionId with_rooms push].
  by rewrite decide_True.
Qed.

Lemma endSession_override_keeps_room_witness :
  status_of (run (on_endSession 7 (Some "s-idle")) sample_world) "s-idle" = Some CLOSED
  ∧ chatSession (run (on_endSession 7 (Some "s-idle")) sample_world) !! "s-active"
    = chatSession sample_world !! "s-active".
Proof.
  destruct (endSession_override_keeps_room 7 "s-idle" "s-active" sample_world
              (bound_socket "v1" "s-active") (mk_row "v2" ACTIVE 700000 2000))
    as (Hclosed & Hrow & _).
  - vm_compute; reflexivity.
  - reflexivity.
  - vm_compute; reflexivity.
  - intros H; discriminate H.
  - intros H; discriminate H.
  - vm_compute; reflexivity.
  - split; [exact Hclosed | exact Hrow].
Defined.

(** ** The REST routes *)

Lemma post_message_eq id content w :
  post_message id content w =
    if negb (truthy content)
    then (w, Returned {| code := 400; body := BError "Message content is required" |})
    else match chatSession w !! id with
         | None => (w, Returned {| code := 404; body := BError "Session not found" |})
         | Some r =>
             (set_chatSession <[id := refresh (clock w) r]>
                (set_chatMessage
                   (λ ms, ms ++ [new_message w id USER (default "" content)])
                   (set_issued S w)),
              Returned {| code := 201;
                          body := BMessage (new_message w id USER (default "" content)) |})
         end.
Proof.
  unfold post_message, json_, chatSession_findUnique, chatMessage_create, uuid,
    chatSession_update.
  async_unfold. cbn [fst snd]. destruct (negb (truthy content)); [done|].
  cbn [fst snd]. destruct (chatSession w !! id) as [r|] eqn:Hrow; [|done].
  cbn [fmap option_fmap option_map fst snd chatSession set_chatMessage set_issued clock].
  by rewrite Hrow.
Qed.

Lemma patch_close_eq id w :
  patch_close id w =
    match chatSession w !! id with
    | Some r =>
        (set_chatSession <[id := set_status CLOSED r]> w,
         Returned {| code := 200;
                     body := BSession (with_key (id, set_status CLOSED r)) |})
    | None =>
        (set_logs (λ ls, ls ++ [ {| level := LError;
            text := "Failed to close session: " +:+ "Record to update not found." |} ]) w,
         Returned {| code := 500; body := BError "Failed to close session" |})
    end.
Proof.
  unfold patch_close, json_, chatSession_update. async_unfold. cbn [fst snd].
  by destruct (chatSession w !! id).
Qed.

Lemma patch_heartbeat_eq id w :
  patch_heartbeat id w =
    match chatSession w !! id with
    | Some r =>
        (set_chatSession <[id := refresh (clock w) r]> w,
         Returned (Json200 id (clock w) (ChatSession.status r)))
    | None =>
        (set_logs (λ ls, ls ++ [ {| level := LError;
            text := "Failed to update heartbeat: " +:+ "Record to update not found." |} ]) w,
         Returned (Json500 "Failed to update heartbeat"))
    end.
Proof.
  unfold patch_heartbeat, chatSession_update. async_unfold. cbn [fst snd].
  by destruct (chatSession w !! id).
Qed.



(** X13. The REST route that closes a session sets the status CLOSED and
    nothing else: the last activity keeps its value, closing again changes
    nothing, and for an unknown id the answer is 500 with both tables
    unchanged. Once a session is closed this way, a message event that
    resolves to it and whose content is not empty after trimming is
    answered with one status event carrying CLOSED, sent to the sender
    alone, and persists nothing. *)
Theorem rest_close_then_message (ext : Externals) (id : string) (w : World) :
  (chatSession w !! id = None →
   result (patch_close id) w
   = Returned {| code := 500; body := BError "Failed to close session" |}
   ∧ chatSession (run (patch_close id) w) = chatSession w
   ∧ chatMessage (run (patch_close id) w) = chatMessage w)
  ∧ (∀ r, chatSession w !! id = Some r →
     let closed := mk_row (ChatSession.visitor_id r) CLOSED
                     (ChatSession.last_active_at r) (ChatSession.created_at r) in
     let w' := run (patch_close id) w in
     result (patch_close id) w
     = Returned {| code := 200; body := BSession (with_key (id, closed)) |}
     ∧ chatSession w' = <[id := closed]> (chatSession w)
     ∧ chatMessage w' = chatMessage w
     ∧ sockets w' = sockets w
     ∧ chatSession (run (patch_close id) w') = chatSession w'
     ∧ (∀ c payload,
          resolved_id w c (msg_sessionId payload) = Some id → id ≠ "" →
          trimmed_content payload ≠ "" →
          only_sender_hears c [EvStatus CLOSED] w' (run (on_message ext c payload) w')
          ∧ nothing_persisted w' (run (on_message ext c payload) w'))).
Proof.
  split.
  - intros Hrow. unfold run, result. by rewrite patch_close_eq, Hrow.
  - intros r Hrow. cbv zeta.
    change (mk_row (ChatSession.visitor_id r) CLOSED
              (ChatSession.last_active_at r) (ChatSession.created_at r))
      with (set_status CLOSED r).
    assert (run (patch_close id) w = set_chatSession <[id := set_status CLOSED r]> w)
      as Hw'.
    { unfold run. by rewrite patch_close_eq, Hrow. }
    split; [unfold result; by rewrite patch_close_eq, Hrow|].
    rewrite Hw'. split; [done|]. split; [done|]. split; [done|]. split.
    + unfold run. rewrite patch_close_eq. cbn [chatSession set_chatSession].
      rewrite lookup_insert_eq. cbn [fst chatSession set_chatSession].
      by rewrite insert_insert_eq.
    + intros c payload Hr Hne Hc. unfold run.
      rewrite (on_message_closed ext c payload _ id); [| done.. |].
      * split; [by apply alter_push_hears | done].
      * right. unfold status_of. cbn [chatSession set_chatSession].
        by rewrite lookup_insert_eq.
Qed.

Lemma rest_close_then_message_witness :
  chatSession (run (patch_close "s-active") sample_world) !! "s-active"
  = Some (mk_row "v1" CLOSED 880000 1000)
  ∧ outbox_of (run (on_message (webhook JNull) 7 (plain_message "anyone?"))
                 (run (patch_close "s-active") sample_world)) 7
    = [EvStatus CLOSED]
  ∧ outbox_of (run (on_message (webhook JNull) 7 (plain_message "anyone?"))
                 (run (patch_close "s-active") sample_world)) 8
    = []
  ∧ chatMessage (run (on_message (webhook JNull) 7 (plain_message "anyone?"))
                   (run (patch_close "s-active") sample_world))
    = [].
Proof.
  destruct (proj2 (rest_close_then_message (webhook JNull) "s-active" sample_world)
              (mk_row "v1" ACTIVE 880000 1000)) as (_ & Hrow & Hm & Hs & _ & Hmsg).
  - vm_compute; reflexivity.
  - destruct (Hmsg 7%nat (plain_message "anyone?")) as [Hhears (_ & Hmsgs & _)].
    + vm_compute; reflexivity.
    + intros H; discriminate H.
    + vm_compute; intros H; discriminate H.
    + unfold outbox_of. rewrite !Hhears, Hmsgs, Hm, Hs, Hrow.
      split; [vm_compute; reflexivity|]. split; [vm_compute; reflexivity|].
      split; vm_compute; reflexivity.
Defined.

(** X14. The REST heartbeat refreshes the last activity of a stored
    session and answers with the status it found, which it never changes
    (an INACTIVE session stays INACTIVE, unlike with the socket
    heartbeat); for an unknown id it answers 500, logs the failure and
    changes neither table. *)
Theorem rest_heartbeat_keeps_status (id : string) (w : World) :
  (∀ r, chatSession w !! id = Some r →
     result (patch_heartbeat id) w = Returned (Json200 id (clock w) (ChatSession.status r))
     ∧ chatSession (run (patch_heartbeat id) w)
       = <[id := touch (clock w) (ChatSession.status r) r]> (chatSession w)
     ∧ status_of (run (patch_heartbeat id) w) id = Some (ChatSession.status r)
     ∧ chatMessage (run (patch_heartbeat id) w) = chatMessage w
     ∧ sockets (run (patch_heartbeat id) w) = sockets w)
  ∧ (chatSession w !! id = None →
     result (patch_heartbeat id) w = Returned (Json500 "Failed to update heartbeat")
     ∧ chatSession (run (patch_heartbeat id) w) = chatSession w
     ∧ chatMessage (run (patch_heartbeat id) w) = chatMessage w
     ∧ length (logs (run (patch_heartbeat id) w)) = S (length (logs w))).
Proof.
  split.
  - intros r Hrow. unfold run, result, status_of. rewrite patch_heartbeat_eq, Hrow.
    cbn [fst snd chatSession chatMessage sockets set_chatSession].
    repeat split. by rewrite lookup_insert_eq.
  - intros Hrow. unfold run, result. rewrite patch_heartbeat_eq, Hrow.
    cbn [fst snd chatSession chatMessage logs set_logs].
    repeat split. rewrite length_app. simpl. lia.
Qed.

Lemma rest_heartbeat_keeps_status_witness :
  status_of (run (patch_heartbeat "s-closed") sample_world) "s-closed" = Some CLOSED.
Proof.
  apply (proj1 (rest_heartbeat_keeps_status "s-closed" sample_world)
           (mk_row "v1" CLOSED 1000 500)).
  vm_compute; reflexivity.
Defined.

Lemma insert_desc_perm a l : insert_desc a l ≡ₚ a :: l.
Proof.
  induction l as [|y l IH]; simpl; [done|].
  destruct (decide _); [done|]. rewrite IH. apply Permutation_swap.
Qed.

Lemma order_desc_perm l : order_desc l ≡ₚ l.
Proof.
  induction l as [|a l IH]; [done|].
  change (order_desc (a :: l)) with (insert_desc a (order_desc l)).
  rewrite insert_desc_perm. by f_equiv.
Qed.

Lemma insert_desc_sorted a l :
  StronglySorted created_ge l → StronglySorted created_ge (insert_desc a l).
Proof.
  induction 1 as [|y l Hs IH Hall]; simpl.
  - repeat constructor.
  - destruct (decide _) as [Hle | Hgt].
    + constructor; [by constructor|]. constructor; [done|].
      eapply Forall_impl; [exact Hall|]. unfold created_ge in *. simpl. lia.
    + constructor; [done|].
      rewrite insert_desc_perm. constructor; [|done].
      unfold created_ge. lia.
Qed.

Lemma order_desc_sorted l : StronglySorted created_ge (order_desc l).
Proof.
  induction l as [|a l IH]; [constructor|].
  change (order_desc (a :: l)) with (insert_desc a (order_desc l)).
  by apply insert_desc_sorted.
Qed.

Lemma elem_of_stored_sessions w s :
  s ∈ with_key <$> map_to_list (chatSession w)
  ↔ chatSession w !! ChatSession.id s = Some (ChatSession.columns s).
Proof.
  rewrite list_elem_of_fmap. split.
  - intros ([k r] & -> & Hkr). by apply elem_of_map_to_list in Hkr.
  - intros Hrow. exists (ChatSession.id s, ChatSession.columns s).
    split; [by destruct s | by apply elem_of_map_to_list].
Qed.

(** X15. The session listing of the REST interface reads without writing
    and answers 200 with at most 50 sessions, each of them stored, newest
    first; every session left out was created no later than every session
    listed, and with at most 50 sessions in the store all of them are
    listed. *)
Theorem get_sessions_newest_first (w : World) :
  ∃ listed,
    get_sessions w = (w, Returned {| code := 200; body := BSessions listed |})
    ∧ (length listed ≤ 50)%nat
    ∧ StronglySorted created_ge listed
    ∧ (∀ s, s ∈ listed →
         chatSession w !! ChatSession.id s = Some (ChatSession.columns s))
    ∧ (∀ s s', s ∈ listed →
         chatSession w !! ChatSession.id s' = Some (ChatSession.columns s') →
         s' ∉ listed → created s' ≤ created s)
    ∧ ((size (chatSession w) ≤ 50)%nat →
       ∀ id r, chatSession w !! id = Some r → with_key (id, r) ∈ listed).
Proof.
  set (all := order_desc (with_key <$> map_to_list (chatSession w))).
  exists (take 50 all).
  assert (∀ s, s ∈ all ↔ chatSession w !! ChatSession.id s = Some (ChatSession.columns s))
    as Hall.
  { intros s. unfold all. rewrite order_desc_perm. apply elem_of_stored_sessions. }
  assert (StronglySorted created_ge (take 50 all ++ drop 50 all)) as Hsorted.
  { rewrite take_drop. apply order_desc_sorted. }
  split; [reflexivity|]. split; [rewrite length_take; lia|].
  split; [by apply StronglySorted_app_1_l in Hsorted|].
  split; [|split].
  - intros s Hs. apply Hall. by apply (subseteq_take 50).
  - intros s s' Hs Hs' Hout.
    assert (s' ∈ drop 50 all) as Hdrop.
    { apply Hall in Hs'. rewrite <- (take_drop 50 all) in Hs'.
      apply elem_of_app in Hs' as [? | ?]; [by destruct Hout | done]. }
    apply (StronglySorted_app_1_elem_of _ _ _ s s' Hsorted Hs Hdrop).
  - intros Hsize id r Hrow. rewrite take_ge.
    + by apply Hall.
    + unfold all. rewrite order_desc_perm, length_fmap.
      by rewrite length_map_to_list.
Qed.

Lemma get_sessions_newest_first_witness :
  ∃ listed,
    result get_sessions sample_world
    = Returned {| code := 200; body := BSessions listed |}
    ∧ with_key ("s-closed", mk_row "v1" CLOSED 1000 500) ∈ listed.
Proof.
  destruct (get_sessions_newest_first sample_world)
    as (listed & Heq & _ & _ & _ & _ & Hall).
  exists listed. split; [unfold result; by rewrite Heq|].
  apply Hall; [vm_compute; lia | vm_compute; reflexivity].
Defined.

Lemma get_session_eq id w :
  get_session id w =
    (w, Returned (match chatSession w !! id with
                  | None => {| code := 404; body := BError "Session not found" |}
                  | Some r => {| code := 200;
                                 body := BSessionWithMessages (with_key (id, r))
                                           (history_asc id w) |}
                  end)).
Proof.
  unfold get_session, json_, chatSession_findUnique, chatMessage_findMany_asc.
  async_unfold. cbn [fst snd]. by destruct (chatSession w !! id).
Qed.

Lemma of_session_nil sid l :
  (∀ m, m ∈ l → ChatMessage.session_id m ≠ sid) → of_session sid l = [].
Proof.
  induction l as [|a l IH]; intros Hall; [done|].
  unfold of_session. rewrite filter_cons, decide_False.
  - apply IH. intros m Hm. apply Hall. by right.
  - apply Hall. left.
Qed.

(** X16. Creating a session over REST and reading it back: the create
    answers 201 with an ACTIVE session of the visitor whose last activity
    and creation are the current instant; a following read of that id
    answers 200 with the same session, and with no message when the
    identifier is new and every stored message belongs to a stored
    session. A read of an id that is not stored answers 404. *)
Theorem rest_create_then_get (visitorId : option string) (w : World) :
  ∃ s,
    result (post_session visitorId) w = Returned {| code := 201; body := BSession s |}
    ∧ ChatSession.status (ChatSession.columns s) = ACTIVE
    ∧ ChatSession.last_active_at (ChatSession.columns s) = clock w
    ∧ ChatSession.created_at (ChatSession.columns s) = clock w
    ∧ (truthy visitorId = true →
       Some (ChatSession.visitor_id (ChatSession.columns s)) = visitorId)
    ∧ (∃ ms, result (get_session (ChatSession.id s)) (run (post_session visitorId) w)
             = Returned {| code := 200; body := BSessionWithMessages s ms |}
             ∧ (no_orphan_messages w → chatSession w !! ChatSession.id s = None →
                ms = []))
    ∧ (∀ id, chatSession (run (post_session visitorId) w) !! id = None →
         result (get_session id) (run (post_session visitorId) w)
         = Returned {| code := 404; body := BError "Session not found" |}).
Proof.
  unfold post_session, json_, chatSession_create, uuid. async_unfold.
  destruct (truthy visitorId) eqn:Ht; cbn [fst snd].
  all: eexists; split; [reflexivity|].
  all: cbn [with_key ChatSession.id ChatSession.columns ChatSession.status
            ChatSession.last_active_at ChatSession.created_at ChatSession.visitor_id
            fst snd clock set_issued].
  all: split; [done|]; split; [done|]; split; [done|]; split.
  all: try (intros _; apply truthy_Some_iff in Ht as (v & -> & _); done).
  all: try done.
  all: split.
  all: try (intros id Hnone; unfold result; rewrite get_session_eq; cbn [snd];
            by rewrite Hnone).
  all: eexists; split.
  all: try (unfold result; rewrite get_session_eq; cbn [snd chatSession set_chatSession];
            rewrite lookup_insert_eq; reflexivity).
  all: intros Horphan Hfresh; unfold history_asc;
    cbn [chatMessage set_chatSession set_issued].
  all: rewrite of_session_nil; [done|]; intros m Hm Hsid.
  all: specialize (Horphan m Hm); rewrite Hsid in Horphan.
  all: apply elem_of_dom in Horphan as [r Hr]; congruence.
Qed.

Lemma rest_create_then_get_witness :
  ∃ s ms,
    result (get_session (ChatSession.id s)) (run (post_session (Some "v7")) sample_world)
    = Returned {| code := 200; body := BSessionWithMessages s ms |}
    ∧ Some (ChatSession.visitor_id (ChatSession.columns s)) = Some "v7".
Proof.
  destruct (rest_create_then_get (Some "v7") sample_world)
    as (s & _ & _ & _ & _ & Hv & (ms & Hget & _) & _).
  exists s, ms. split; [exact Hget|]. apply Hv. reflexivity.
Defined.

(** ** Nothing is ever removed *)

Lemma extends_refl w : extends w w.
Proof.
  split; [done|]. split; [lia|]. exists []. split; [by rewrite app_nil_r|].
  intros m Hm. by apply elem_of_nil in Hm.
Qed.

Lemma extends_trans w1 w2 w3 : extends w1 w2 → extends w2 w3 → extends w1 w3.
Proof.
  intros (Hd1 & Hc1 & a1 & Hm1 & Ha1) (Hd2 & Hc2 & a2 & Hm2 & Ha2).
  split; [by etrans|]. split; [lia|]. exists (a1 ++ a2).
  split; [by rewrite Hm2, Hm1, app_assoc|].
  intros m [Hm | Hm]%elem_of_app.
  - destruct (Ha1 m Hm) as [? ?]. split; [lia | by apply Hd2].
  - destruct (Ha2 m Hm) as [? ?]. split; [lia | done].
Qed.

Lemma extends_store w w' :
  dom (chatSession w) ⊆ dom (chatSession w') →
  chatMessage w' = chatMessage w → clock w' = clock w → extends w w'.
Proof.
  intros Hd Hm Hc. split; [done|]. split; [lia|]. exists [].
  split; [by rewrite app_nil_r|]. intros m Hin. by apply elem_of_nil in Hin.
Qed.

Lemma dom_update_subseteq id (r : ChatSession.row) (tbl : gmap string ChatSession.row) :
  dom tbl ⊆ dom (<[id := r]> tbl).
Proof. rewrite dom_insert_L. apply union_subseteq_r. Qed.

Lemma extends_message ext c payload w : extends w (run (on_message ext c payload) w).
Proof.
  destruct (truthy (resolved_id w c (msg_sessionId payload))) eqn:Ht.
  2: { unfold run. rewrite on_message_unresolved by done. by apply extends_store. }
  destruct (decide (trimmed_content payload = "")) as [He | Hc].
  { unfold run. rewrite on_message_empty by done. by apply extends_store. }
  apply truthy_Some_iff in Ht as (sid & Hr & Hne).
  destruct (session_trichotomy w sid) as [Hmiss | [Hcl | (r & Hrow & Hopen)]].
  - unfold run. erewrite on_message_closed; [|done..|by left]. by apply extends_store.
  - unfold run. erewrite on_message_closed; [|done..|by right]. by apply extends_store.
  - destruct (on_message_accepted_effect ext c payload w sid r)
      as (Hmsgs & Hstore & _ & Hclk & _); [done..|].
    pose proof (call_duration_nonneg ext (turn_body w sid payload)) as Hd.
    split; [rewrite Hstore; apply dom_update_subseteq|]. split; [lia|].
    eexists. split; [exact Hmsgs|].
    assert (sid ∈ dom (chatSession (run (on_message ext c payload) w))) as Hin.
    { rewrite Hstore. apply elem_of_dom. rewrite lookup_insert_eq. by eexists. }
    intros m [-> | Hm]%elem_of_cons.
    + split; [simpl; lia | exact Hin].
    + unfold turn_replies in Hm.
      destruct (reply_of ext _); try by apply elem_of_nil in Hm.
      apply list_elem_of_singleton in Hm as ->.
      split; [|exact Hin]. rewrite Hclk. simpl. lia.
Qed.

Lemma extends_endSession c override w : extends w (run (on_endSession c override) w).
Proof.
  destruct (truthy (resolved_id w c override)) eqn:Ht.
  2: { unfold run. rewrite on_endSession_unresolved by done. by apply extends_store. }
  apply truthy_Some_iff in Ht as (sid & Hr & Hne).
  destruct (chatSession w !! sid) as [r|] eqn:Hrow.
  - unfold run. rewrite (on_endSession_stored c override w sid r) by done.
    cbn [fst]. split; [apply dom_update_subseteq|]. split; [simpl; lia|].
    eexists. split; [reflexivity|].
    intros m ->%list_elem_of_singleton. split; [simpl; lia|].
    cbn [chatSession set_sockets set_chatMessage set_issued set_chatSession].
    apply elem_of_dom. rewrite lookup_insert_eq. by eexists.
  - unfold run. rewrite (on_endSession_missing c override w sid) by done.
    by apply extends_store.
Qed.

Lemma extends_heartbeat c override w : extends w (run (on_heartbeat c override) w).
Proof.
  unfold run. rewrite on_heartbeat_eq.
  destruct (negb (truthy _)); [apply extends_refl|].
  destruct (chatSession w !! _); [|by apply extends_store].
  apply extends_store; [apply dom_update_subseteq | done..].
Qed.

Lemma extends_perform ext op w : extends w (run (perform ext op) w).
Proof.
  destruct op as [c payload | c sid | c sid | hb cm | id]; unfold perform.
  - rewrite when_listening_run. destruct (decide _); [|apply extends_refl].
    apply extends_message.
  - rewrite when_listening_run. destruct (decide _); [|apply extends_refl].
    apply extends_heartbeat.
  - rewrite when_listening_run. destruct (decide _); [|apply extends_refl].
    apply extends_endSession.
  - unfold fire, schedule. cbn [running callback].
    destruct (cleanupTick_frame hb cm w) as (Hm & Hc & _).
    apply extends_store; [|done..].
    rewrite cleanupTick_chatSession.
    destruct (new_Date (inactiveThreshold _ _)); [|done].
    destruct (new_Date (closeThreshold _ _)); by rewrite dom_fmap_L.
  - unfold run. async_unfold. rewrite patch_heartbeat_eq.
    destruct (chatSession w !! id); cbn [fst];
      [apply extends_store; [apply dom_update_subseteq | done..]
      | by apply extends_store].
Qed.

Lemma extends_connection c handshake w : extends w (run (on_connection c handshake) w).
Proof.
  destruct (on_connection_full c handshake w)
    as (sid & v & r & _ & _ & _ & Hrow & Hother & Hm).
  destruct (on_connection_effect c handshake w) as (_ & _ & _ & _ & _ & Hc).
  apply extends_store; [|done..].
  intros id [r0 Hid]%elem_of_dom. apply elem_of_dom.
  destruct (decide (id = sid)) as [-> | Hne].
  - by rewrite Hrow.
  - rewrite Hother by done. by rewrite Hid.
Qed.

Lemma serve_rest_sockets ext req w :
  (∀ c h, req ≠ ReqConnection c h) → (∀ op, req ≠ ReqOperation op) →
  sockets (run (serve ext req) w) = sockets w.
Proof.
  intros Hc Hop. destruct req as [c h | op | | v | id | id | id content | id].
  - by destruct (Hc c h).
  - by destruct (Hop op).
  - reflexivity.
  - unfold serve, post_session, json_, chatSession_create, uuid. async_unfold.
    by destruct (truthy v).
  - unfold serve, run. async_unfold. by rewrite get_session_eq.
  - reflexivity.
  - unfold serve, run. async_unfold. rewrite post_message_eq.
    destruct (negb (truthy content)); [done|]. by destruct (chatSession w !! id).
  - unfold serve, run. async_unfold. rewrite patch_close_eq.
    by destruct (chatSession w !! id).
Qed.

Lemma serve_extends ext req w : extends w (run (serve ext req) w).
Proof.
  destruct req as [c h | op | | v | id | id | id content | id]; unfold serve.
  - apply extends_connection.
  - apply extends_perform.
  - apply extends_refl.
  - unfold post_session, json_, chatSession_create, uuid. async_unfold.
    destruct (truthy v); cbn [fst snd];
      (apply extends_store; [apply dom_update_subseteq | done..]).
  - unfold run. async_unfold. rewrite get_session_eq. apply extends_refl.
  - apply extends_refl.
  - unfold run. async_unfold. rewrite post_message_eq.
    destruct (negb (truthy content)); [apply extends_refl|].
    destruct (chatSession w !! id) as [r|] eqn:Hrow; [|apply extends_refl].
    cbn [fst]. split; [apply dom_update_subseteq|]. split; [simpl; lia|].
    eexists. split; [reflexivity|].
    intros m ->%list_elem_of_singleton. split; [simpl; lia|].
    cbn [chatSession set_sockets set_chatMessage set_issued set_chatSession].
    apply elem_of_dom. rewrite lookup_insert_eq. by eexists.
  - unfold run. async_unfold. rewrite patch_close_eq.
    destruct (chatSession w !! id); cbn [fst];
      [apply extends_store; [apply dom_update_subseteq | done..]
      | by apply extends_store].
Qed.

(** X17. The stores are append-only under everything the server answers
    to (connects, socket events, sweep ticks and REST calls, in any
    number and order): no session row is ever removed, every stored
    message stays at its position with its content, the clock does not go
    back, and every message added is dated between the clock before and
    the clock after and belongs to a session that is stored. *)
Theorem serve_all_append_only (ext : Externals) (reqs : list Request) (w : World) :
  extends w (serve_all ext reqs w)
  ∧ (∀ id, is_Some (chatSession w !! id) →
           is_Some (chatSession (serve_all ext reqs w) !! id))
  ∧ (∀ i m, chatMessage w !! i = Some m →
            chatMessage (serve_all ext reqs w) !! i = Some m).
Proof.
  assert (extends w (serve_all ext reqs w)) as Hext.
  { revert w. induction reqs as [|req reqs IH]; intros w; [apply extends_refl|].
    cbn [serve_all foldl]. eapply extends_trans; [apply serve_extends | apply IH]. }
  split; [exact Hext|]. destruct Hext as (Hdom & _ & added & Hm & _). split.
  - intros id Hid. apply elem_of_dom, Hdom, elem_of_dom, Hid.
  - intros i m Hi. rewrite Hm. by apply lookup_app_l_Some.
Qed.

Lemma serve_all_append_only_witness :
  is_Some (chatSession
             (serve_all (webhook (JStr "ok"))
                [ReqOperation (OpEndSession 7 None); ReqClose "s-idle";
                 ReqOperation (OpTick 120 15)] sample_world) !! "s-active").
Proof.
  apply (proj1 (proj2 (serve_all_append_only (webhook (JStr "ok"))
                         [ReqOperation (OpEndSession 7 None); ReqClose "s-idle";
                          ReqOperation (OpTick 120 15)] sample_world))).
  vm_compute. eexists; reflexivity.
Defined.

Lemma bound_in_room_serve ext req w :
  bound_in_room w → bound_in_room (run (serve ext req) w).
Proof.
  intros Hw.
  destruct req as [c h | op | | v | id | id | id content | id].
  1: by apply bound_in_room_connection.
  1: by apply bound_in_room_perform.
  all: unfold bound_in_room; by rewrite serve_rest_sockets.
Qed.

Lemma no_orphan_extends w w' :
  extends w w' → no_orphan_messages w → no_orphan_messages w'.
Proof.
  intros (Hdom & _ & added & Hm & Ha) Hw m. rewrite Hm.
  intros [Hin | Hin]%elem_of_app; [by apply Hdom, Hw | by apply Ha].
Qed.

Lemma no_future_extends w w' :
  extends w w' → no_future_messages w → no_future_messages w'.
Proof.
  intros (_ & Hc & added & Hm & Ha) Hw m. rewrite Hm.
  intros [Hin | Hin]%elem_of_app.
  - specialize (Hw m Hin). lia.
  - destruct (Ha m Hin) as [? _]. lia.
Qed.

(** X18. Whatever requests the server has answered since start-up, its
    world is well formed: every message belongs to a stored session, no
    message is dated after the clock, every socket that is bound to a
    session is in the room of that session, and the clock is not before
    the start. *)
Theorem reachable_invariants (ext : Externals) (reqs : list Request) (now : Z) :
  let w := serve_all ext reqs (initial_world now) in
  no_orphan_messages w ∧ no_future_messages w ∧ bound_in_room w ∧ now ≤ clock w.
Proof.
  cbv zeta.
  assert (∀ w0, no_orphan_messages w0 ∧ no_future_messages w0 ∧ bound_in_room w0
                ∧ now ≤ clock w0 →
                no_orphan_messages (serve_all ext reqs w0)
                ∧ no_future_messages (serve_all ext reqs w0)
                ∧ bound_in_room (serve_all ext reqs w0)
                ∧ now ≤ clock (serve_all ext reqs w0)) as Hind.
  { induction reqs as [|req reqs IH]; intros w0 Hw0; [done|].
    cbn [serve_all foldl]. apply IH.
    destruct Hw0 as (Ho & Hf & Hb & Hn).
    pose proof (serve_extends ext req w0) as Hext.
    split; [by eapply no_orphan_extends|]. split; [by eapply no_future_extends|].
    split; [by apply bound_in_room_serve|].
    destruct Hext as (_ & Hc & _). lia. }
  apply Hind. unfold initial_world, mk_world.
  split; [intros m Hm; by apply elem_of_nil in Hm|].
  split; [intros m Hm; by apply elem_of_nil in Hm|].
  split; [|simpl; lia].
  intros c s Hs. cbn [sockets] in Hs. by rewrite lookup_empty in Hs.
Qed.

(** ** The widget and the server *)

(** X19. What the widget emits is always addressed: a submit sends nothing
    when the text is blank or the widget has no session id, and otherwise
    a message event that carries the widget's session id and the trimmed
    text. The server resolves such an event to that id whatever the socket
    is bound to, never answers it with the unresolvable error and never
    drops it as empty: it answers with status CLOSED when the session is
    missing or CLOSED and stores the trimmed text as a USER message
    otherwise. A heartbeat of the widget carries its session id as well. *)
Theorem widget_events_resolve (input : string) (wd : Widget) :
  (widget_submit input wd = None ↔
   trim input = "" ∨ truthy (currentSessionId wd) = false)
  ∧ (∀ payload, widget_submit input wd = Some payload →
     ∃ sid, currentSessionId wd = Some sid ∧ sid ≠ ""
       ∧ msg_sessionId payload = Some sid
       ∧ trimmed_content payload = trim input ∧ trim input ≠ ""
       ∧ ∀ ext c w,
           resolved_id w c (msg_sessionId payload) = Some sid
           ∧ (chatSession w !! sid = None ∨ status_of w sid = Some CLOSED →
              only_sender_hears c [EvStatus CLOSED] w (run (on_message ext c payload) w)
              ∧ nothing_persisted w (run (on_message ext c payload) w))
           ∧ (∀ r, chatSession w !! sid = Some r → ChatSession.status r ≠ CLOSED →
              ∃ replies,
                chatMessage (run (on_message ext c payload) w)
                = chatMessage w ++ new_message w sid USER (trim input) :: replies))
  ∧ (∀ o, widget_heartbeat wd = Some o →
     truthy o = true ∧ ∀ w c, resolved_id w c o = currentSessionId wd).
Proof.
  unfold widget_submit, widget_heartbeat. split; [|split].
  - cbn [truthy]. destruct (truthy (currentSessionId wd)); cbn [negb].
    + rewrite orb_false_r. case_bool_decide as Hne; cbn [negb].
      * split; [done|]. intros [? | ?]; done.
      * split; [|done]. intros _. left.
        by destruct (decide (trim input = "")) as [? | ?]; [|destruct Hne].
    + rewrite orb_true_r. split; [by right | done].
  - intros payload. cbn [truthy].
    case_bool_decide as Hne; cbn [negb orb]; [|done].
    destruct (truthy (currentSessionId wd)) eqn:Ht; cbn [negb]; [|done].
    intros [= <-]. apply truthy_Some_iff in Ht as (sid & Hsid & Hsne).
    exists sid. cbn [msg_sessionId].
    assert (trimmed_content
              {| msg_sessionId := currentSessionId wd; msg_content := Some (trim input);
                 msg_metadata := Some (JObj [("page", JStr (page wd))]) |}
            = trim input) as Htrim.
    { unfold trimmed_content. cbn [msg_content fmap option_fmap option_map default].
      apply trim_idem. }
    split; [done|]. split; [done|]. split; [done|]. split; [done|]. split; [done|].
    intros ext c w.
    assert (resolved_id w c (currentSessionId wd) = Some sid) as Hr.
    { unfold resolved_id. by rewrite Hsid. }
    split; [done|]. split.
    + intros Hmiss. unfold run.
      rewrite (on_message_closed ext c _ w sid); try done.
      * split; [by apply alter_push_hears | done].
      * by rewrite Htrim.
    + intros r Hrow Hopen.
      destruct (on_message_accepted_effect ext c
                  {| msg_sessionId := currentSessionId wd;
                     msg_content := Some (trim input);
                     msg_metadata := Some (JObj [("page", JStr (page wd))]) |}
                  w sid r) as (Hm & _); try done.
      { by rewrite Htrim. }
      eexists. rewrite Hm. unfold turn_user. by rewrite Htrim.
  - intros o. destruct (truthy (currentSessionId wd)) eqn:Ht; cbn [negb]; [|done].
    intros [= <-]. split; [done|]. intros w c.
    apply truthy_Some_iff in Ht as (sid & -> & _). reflexivity.
Qed.

Lemma widget_events_resolve_witness :
  (∃ payload,
     widget_submit "  hello " {| currentSessionId := Some "s-active"; page := "/" |}
     = Some payload
     ∧ trimmed_content payload = "hello")
  ∧ widget_submit blank_text {| currentSessionId := Some "s-active"; page := "/" |}
    = None.
Proof.
  split.
  - eexists. split; [reflexivity|].
    destruct (proj1 (proj2 (widget_events_resolve "  hello "
                              {| currentSessionId := Some "s-active"; page := "/" |}))
                _ eq_refl) as (sid & _ & _ & _ & Ht & _).
    exact Ht.
  - apply (proj2 (proj1 (widget_events_resolve blank_text
                           {| currentSessionId := Some "s-active"; page := "/" |}))).
    left. reflexivity.
Defined.

(** ** The responder client, continued *)

Lemma extract_output_is_string ext data :
  (∀ name, name ∈ ["output"; "text"; "message"] →
     absent name data ∨ ∃ s, get_field name data = Some (JStr s)) →
  is_string (extract_output ext data).
Proof.
  intros Hfields. unfold extract_output.
  assert (∀ name b, name ∈ ["output"; "text"; "message"] → is_string b →
            is_string (nullish_or (get_field name data) b)) as Hstep.
  { intros name b Hname Hb. destruct (Hfields name Hname) as [Ha | [s Hs]].
    - by rewrite nullish_or_absent.
    - rewrite Hs. by exists s. }
  apply Hstep; [set_solver|]. apply Hstep; [set_solver|]. apply Hstep; [set_solver|].
  destruct data; by eexists.
Qed.

(** X20. [sendToN8n] never throws and never touches the store or the
    sockets: each call records exactly one post of the body built from
    the payload. When the call exceeds the timeout or is rejected it hands
    back the fixed apology; when the webhook answers in time and each of
    the fields output, text and message is absent, null or a string, it
    hands back a string. *)
Theorem sendToN8n_contract (ext : Externals) (payload : N8nPayload) (w : World) :
  let w' := run (sendToN8n ext payload) w in
  (∃ v, result (sendToN8n ext payload) w = Returned v)
  ∧ posts w' = posts w ++ [body_of payload]
  ∧ chatSession w' = chatSession w ∧ chatMessage w' = chatMessage w
  ∧ sockets w' = sockets w
  ∧ ((timeout < round_trip ext (body_of payload))%N
     ∨ (∃ msg, axios_post ext (body_of payload) = Rejected msg) →
     result (sendToN8n ext payload) w = Returned (JStr apology))
  ∧ (∀ data,
       (round_trip ext (body_of payload) ≤ timeout)%N →
       axios_post ext (body_of payload) = Resolved data →
       (∀ name, name ∈ ["output"; "text"; "message"] →
          absent name data ∨ ∃ s, get_field name data = Some (JStr s)) →
       ∃ s, result (sendToN8n ext payload) w = Returned (JStr s)).
Proof.
  cbv zeta.
  destruct (sendToN8n_frame ext payload w) as (Hcs & Hcm & Hsk & _ & Hposts & _).
  split; [eexists; apply sendToN8n_result|].
  split; [done|]. split; [done|]. split; [done|]. split; [done|]. split.
  - apply sendToN8n_apology.
  - intros data Htime Hdata Hfields. rewrite sendToN8n_result. unfold reply_of.
    rewrite decide_False by lia. rewrite Hdata.
    destruct (extract_output_is_string ext data Hfields) as [s ->]. by exists s.
Qed.

Lemma sendToN8n_contract_witness :
  ∃ s, result (sendToN8n (webhook (JObj [("text", JStr "hi")]))
                 (brain_request sample_world "s-active" "hello" None)) sample_world
       = Returned (JStr s).
Proof.
  apply (proj2 (proj2 (proj2 (proj2 (proj2 (proj2
           (sendToN8n_contract (webhook (JObj [("text", JStr "hi")]))
              (brain_request sample_world "s-active" "hello" None) sample_world))))))
           (JObj [("text", JStr "hi")])).
  - vm_compute. intros H; discriminate H.
  - reflexivity.
  - intros name Hname.
    repeat (apply elem_of_cons in Hname as [-> | Hname]);
      [left; left; reflexivity | right; exists "hi"; reflexivity
      | left; left; reflexivity | by apply elem_of_nil in Hname].
Defined.

Lemma ensureSession_stored_open_witness :
  ∃ s, result (ensureSession "v5" (Some "s-closed")) sample_world = Returned s
       ∧ ChatSession.status (ChatSession.columns s) ≠ CLOSED.
Proof.
  destruct (ensureSession_stored_open "v5" (Some "s-closed") sample_world)
    as (s & Hres & _ & Hopen & _).
  exists s. split; [exact Hres | exact Hopen].
Defined.

(** ** CLOSED rows, continued *)

(** X21. A CLOSED row is left exactly as it is by every sweep tick,
    whatever the settings of the job, by the REST route that closes a
    session and by the REST reads: none of these paths reopens a closed
    session or moves its last activity. *)
Theorem closed_rows_survive (ext : Externals) (w : World) (id : string)
    (r : ChatSession.row) :
  chatSession w !! id = Some r → ChatSession.status r = CLOSED →
  (∀ hb cm, chatSession (run (perform ext (OpTick hb cm)) w) !! id = Some r)
  ∧ (∀ id', chatSession (run (serve ext (ReqClose id')) w) !! id = Some r)
  ∧ chatSession (run (serve ext ReqGetSessions) w) !! id = Some r
  ∧ (∀ id', chatSession (run (serve ext (ReqGetSession id')) w) !! id = Some r)
  ∧ (∀ id', chatSession (run (serve ext (ReqGetMessages id')) w) !! id = Some r).
Proof.
  intros Hrow Hclosed. split; [|split; [|split; [|split]]].
  - intros hb cm. by apply closed_terminal_tick.
  - intros id'. unfold serve, run. async_unfold. rewrite patch_close_eq.
    destruct (chatSession w !! id') as [r'|] eqn:Hrow'; cbn [fst]; [|done].
    cbn [chatSession set_chatSession].
    destruct (decide (id' = id)) as [-> | Hne].
    + rewrite lookup_insert_eq. rewrite Hrow in Hrow'. injection Hrow' as <-.
      f_equal. destruct r. simpl in Hclosed. by subst.
    + by rewrite lookup_insert_ne.
  - done.
  - intros id'. unfold serve, run. async_unfold. by rewrite get_session_eq.
  - done.
Qed.

Lemma closed_rows_survive_witness :
  chatSession (run (perform (webhook JNull) (OpTick 120 15)) sample_world) !! "s-closed"
  = Some (mk_row "v1" CLOSED 1000 500)
  ∧ chatSession (run (serve (webhook JNull) (ReqClose "s-closed")) sample_world)
      !! "s-closed"
    = Some (mk_row "v1" CLOSED 1000 500).
Proof.
  destruct (closed_rows_survive (webhook JNull) sample_world "s-closed"
              (mk_row "v1" CLOSED 1000 500) eq_refl eq_refl) as (Htick & Hclose & _).
  split; [apply Htick | apply Hclose].
Defined.

(** ** The message handler and a session closed meanwhile *)

Lemma on_message_split ext c payload w sid :
  resolved_id w c (msg_sessionId payload) = Some sid → sid ≠ "" →
  trimmed_content payload ≠ "" →
  on_message ext c payload w
  = on_message_resume ext c sid (trimmed_content payload) (msg_metadata payload)
      (looked_up w sid) w.
Proof.
  intros Hr Hne Hc. unfold resolved_id, bound_of in Hr.
  unfold on_message, on_message_resume, looked_up, socket_data_sessionId.
  async_unfold. simpl in Hr |- *. rewrite Hr, truthy_trimmed. simpl.
  rewrite !bool_decide_true by done. simpl.
  unfold chatSession_findUnique, gets. simpl.
  fold (trimmed_content payload). reflexivity.
Qed.

Lemma on_message_resume_open ext c sid content metadata s w r :
  missing_or_closed (Some s) = false →
  chatSession w !! sid = Some r →
  chatSession (run (on_message_resume ext c sid content metadata (Some s)) w)
  = <[sid := touch (clock w) ACTIVE r]> (chatSession w)
  ∧ ∃ replies,
      chatMessage (run (on_message_resume ext c sid content metadata (Some s)) w)
      = chatMessage w ++ new_message w sid USER content :: replies.
Proof.
  intros Hopen Hrow. unfold on_message_resume. rewrite Hopen.
  unfold chatMessage_create, uuid, io_to_emit, socket_emit, on_socket,
    chatSession_update, getHistory, chatMessage_findMany_asc.
  async_unfold. cbn [fst snd chatSession set_chatSession set_chatMessage set_sockets
                     set_issued clock issued chatMessage].
  rewrite Hrow. cbn [fst snd].
  match goal with
  | |- context [sendToN8n ext ?req ?w3] =>
      pose proof (sendToN8n_result ext req w3) as Hres;
      destruct (sendToN8n_frame ext req w3) as (Hcs & Hcm & _);
      unfold result, run in Hres, Hcs, Hcm;
      destruct (sendToN8n ext req w3) as [w4 o]
  end.
  cbn [fst snd] in Hres, Hcs, Hcm. subst o.
  destruct (reply_of ext _); cbn [fst snd chatSession chatMessage set_chatSession
    set_chatMessage set_sockets set_issued set_logs];
    rewrite ?Hcs, ?Hcm; cbn [chatSession chatMessage set_chatSession
    set_chatMessage set_sockets set_issued];
    (split; [reflexivity|]); rewrite <- ?app_assoc; eexists; reflexivity.
Qed.

(** X24. The message handler checks the status of the session on the
    answer of its lookup and writes afterwards without checking again.
    Run in one piece, the handler is its lookup followed by the rest. When
    the lookup has answered with a session that is not CLOSED and the row
    is CLOSED by the time the rest of the handler runs (a REST close in
    between, for one), the handler stores the USER message all the same
    and sets the row ACTIVE again, with its last activity at the current
    instant. *)
Theorem in_flight_message_reopens_closed_session (ext : Externals) (c : nat)
    (payload : IncomingMessagePayload) (sid : string) (w0 w : World)
    (r0 r : ChatSession.row) :
  resolved_id w0 c (msg_sessionId payload) = Some sid → sid ≠ "" →
  trimmed_content payload ≠ "" →
  chatSession w0 !! sid = Some r0 → ChatSession.status r0 ≠ CLOSED →
  chatSession w !! sid = Some r → ChatSession.status r = CLOSED →
  let rest := on_message_resume ext c sid (trimmed_content payload)
                (msg_metadata payload) (looked_up w0 sid) in
  on_message ext c payload w0 = rest w0
  ∧ chatSession (run rest w) !! sid
    = Some (mk_row (ChatSession.visitor_id r) ACTIVE (clock w) (ChatSession.created_at r))
  ∧ ∃ replies,
      chatMessage (run rest w)
      = chatMessage w ++ new_message w sid USER (trimmed_content payload) :: replies.
Proof.
  intros Hr Hne Hc Hrow0 Hopen Hrow Hclosed. cbv zeta.
  split; [by apply on_message_split|].
  unfold looked_up. rewrite Hrow0. cbn [fmap option_fmap option_map].
  destruct (on_message_resume_open ext c sid (trimmed_content payload)
              (msg_metadata payload) (with_key (sid, r0)) w r) as [Hstore Hmsgs].
  { cbn [missing_or_closed with_key ChatSession.columns ChatSession.status].
    by apply bool_decide_eq_false. }
  { exact Hrow. }
  split; [|exact Hmsgs].
  by rewrite Hstore, lookup_insert_eq.
Qed.

Lemma in_flight_message_reopens_closed_session_witness :
  chatSession (run (patch_close "s-active") sample_world) !! "s-active"
  = Some (mk_row "v1" CLOSED 880000 1000)
  ∧ chatSession
      (run (on_message_resume (webhook (JStr "hi")) 7 "s-active" "hello" None
              (looked_up sample_world "s-active"))
         (run (patch_close "s-active") sample_world)) !! "s-active"
    = Some (mk_row "v1" ACTIVE 1000000 1000).
Proof.
  split; [vm_compute; reflexivity|].
  refine (proj1 (proj2 (in_flight_message_reopens_closed_session (webhook (JStr "hi")) 7
                          (plain_message "hello") "s-active" sample_world
                          (run (patch_close "s-active") sample_world)
                          (mk_row "v1" ACTIVE 880000 1000)
                          (mk_row "v1" CLOSED 880000 1000) _ _ _ _ _ _ _))).
  - vm_compute; reflexivity.
  - intros H; discriminate H.
  - vm_compute; intros H; discriminate H.
  - vm_compute; reflexivity.
  - intros H; discriminate H.
  - vm_compute; reflexivity.
  - reflexivity.
Defined.
